(** * A three-layer feed-forward network trained by online backpropagation

    Shallow embedding of [src/network.ts] (class [Network]) together with the
    part of the numjs array library that the class calls.

    - JavaScript numbers are kept abstract: every definition is parametric in
      a type [F] of scalars with the arithmetic the code uses ([JsNumber]).
      No algebraic law is assumed of it, so whatever is proved holds for
      IEEE doubles as well as for the reals.
    - A numjs [NdArray] of two dimensions is a shape together with its rows.
    - The methods of [Network] mutate [this] and may throw; they are written
      in a small state-and-exception monad in which the state reached before
      a throw is kept, as in JavaScript.
    - [getRandomInt] (module [./utils]) and the default activator [Sigmoid]
      (module [./activators]) are not part of [network.ts]; the sampler is a
      parameter of [train] and the default activator a parameter of the
      constructor. *)

From Stdlib Require Import String.
From Stdlib Require Import QArith.
From Stdlib Require Import List ZArith Lia Bool Reals Lra.
Import ListNotations.
Local Close Scope Q_scope.
Local Close Scope R_scope.
Local Close Scope Z_scope.

Set Implicit Arguments.

(** ** Scalars *)

Class JsNumber (F : Type) : Type := {
  num0 : F;                       (* the literal 0 *)
  num1 : F;                       (* the literal 1 *)
  num_half : F;                   (* the literal 0.5 *)
  num_default_LR : F;             (* the literal 0.3 *)
  num_add : F -> F -> F;
  num_sub : F -> F -> F;
  num_mul : F -> F -> F;
  num_nan : F                     (* what arithmetic sees in a missing cell *)
}.

(** ** Completions and the method monad *)

Inductive Exn : Type :=
| TypeError (msg : string)       (* raised by the JavaScript runtime *)
| ValueError (msg : string)      (* raised by numjs *)
| Error (msg : string).          (* raised by cwise, beneath numjs *)

Inductive Completion (A : Type) : Type :=
| Normal (a : A)
| Throw (e : Exn).

Arguments Normal {A} a.
Arguments Throw {A} e.

Definition M (St A : Type) : Type := St -> Completion A * St.

Definition ret {St A : Type} (a : A) : M St A :=
  fun s => (Normal a, s).

Definition bind {St A B : Type} (c : M St A) (k : A -> M St B) : M St B :=
  fun s =>
    match c s with
    | (Normal a, s') => k a s'
    | (Throw e, s') => (Throw e, s')
    end.

Definition throw {St A : Type} (e : Exn) : M St A :=
  fun s => (Throw e, s).

Definition get {St : Type} : M St St :=
  fun s => (Normal s, s).

Definition modify {St : Type} (f : St -> St) : M St unit :=
  fun s => (Normal tt, f s).

Definition liftC {St A : Type} (c : Completion A) : M St A :=
  fun s => (c, s).

Declare Scope method_scope.
Delimit Scope method_scope with method.
Notation "x <- c ;; k" := (bind c (fun x => k))
  (at level 61, c at next level, right associativity) : method_scope.
Notation "c ;; k" := (bind c (fun _ => k))
  (at level 61, right associativity) : method_scope.

Section Model.

Context {F : Type} `{JsNumber F}.

(** ** numjs arrays *)

Record NdArray : Type := mkNd {
  rows : nat;
  cols : nat;
  cells : list (list F)
}.

Definition shape (m : NdArray) : nat * nat := (rows m, cols m).

(* m.get(i, j); a cell the array does not have reads as [num_nan] *)
Definition nd_get (m : NdArray) (i j : nat) : F :=
  nth j (nth i (cells m) []) num_nan.

Definition tabulate (r c : nat) (f : nat -> nat -> F) : NdArray :=
  mkNd r c (map (fun i => map (fun j => f i j) (seq 0 c)) (seq 0 r)).

Definition nd_map (f : F -> F) (m : NdArray) : NdArray :=
  mkNd (rows m) (cols m) (map (map f) (cells m)).

(* nj.array(xs).reshape(1, xs.length) *)
Definition nj_array_reshape_1 (xs : list F) : NdArray :=
  mkNd 1 (length xs) [xs].

(* m.T *)
Definition nd_T (m : NdArray) : NdArray :=
  tabulate (cols m) (rows m) (fun i j => nd_get m j i).

(* nj.ones(shape) *)
Definition nj_ones (sh : nat * nat) : NdArray :=
  tabulate (fst sh) (snd sh) (fun _ _ => num1).

(* nj.random([r, c]): the array is filled in row-major order with successive
   values of Math.random, given here as the stream [random] read from [pos] *)
Definition nj_random (sh : nat * nat) (random : nat -> F) (pos : nat)
  : NdArray * nat :=
  (tabulate (fst sh) (snd sh) (fun i j => random (pos + i * snd sh + j)),
   pos + fst sh * snd sh).

(* The cell by cell combination of two arrays, in the shape of the first. *)
Definition nd_zip (op : F -> F -> F) (a b : NdArray) : NdArray :=
  tabulate (rows a) (cols a) (fun i j => op (nd_get a i j) (nd_get b i j)).

Definition same_shape (a b : NdArray) : bool :=
  Nat.eqb (rows a) (rows b) && Nat.eqb (cols a) (cols b).

(* a.add(b), a.subtract(b), a.multiply(b) with an array b: the receiver is
   cloned and the clone updated cell by cell; operands of unequal shape make
   cwise throw *)
Definition nd_elementwise (op : F -> F -> F) (a b : NdArray)
  : Completion NdArray :=
  if same_shape a b
  then Normal (nd_zip op a b)
  else Throw (Error "cwise: Arrays do not all have the same shape!"%string).

Definition nd_add : NdArray -> NdArray -> Completion NdArray :=
  nd_elementwise num_add.
Definition nd_subtract : NdArray -> NdArray -> Completion NdArray :=
  nd_elementwise num_sub.
Definition nd_multiply : NdArray -> NdArray -> Completion NdArray :=
  nd_elementwise num_mul.

(* a.subtract(x), a.multiply(x) with a number x *)
Definition nd_subtract_num (a : NdArray) (x : F) : NdArray :=
  tabulate (rows a) (cols a) (fun i j => num_sub (nd_get a i j) x).
Definition nd_multiply_num (a : NdArray) (x : F) : NdArray :=
  tabulate (rows a) (cols a) (fun i j => num_mul (nd_get a i j) x).

(* the matrix product: cell (i, j) accumulates a[i,k] * b[k,j] over k *)
Definition mat_mul (a b : NdArray) : NdArray :=
  tabulate (rows a) (cols b) (fun i j =>
    fold_left (fun acc k => num_add acc (num_mul (nd_get a i k) (nd_get b k j)))
              (seq 0 (cols a)) num0).

(* a.dot(b) for two-dimensional a and b *)
Definition nd_dot (a b : NdArray) : Completion NdArray :=
  if Nat.eqb (cols a) (rows b)
  then Normal (mat_mul a b)
  else Throw (ValueError "cannot compute the matrix product of given arrays"%string).

(** ** The data of network.ts *)

Record ActivationStrategy : Type := {
  execute : NdArray -> NdArray
}.

Record IForwardResult : Type := {
  hiddenOutputs : NdArray;
  finalOutputs : NdArray
}.

Record ITrainItem : Type := {
  inputs : list F;
  targets : list F
}.

Definition TrainSet : Type := list ITrainItem.

Record Network : Type := mkNetwork {
  weightsIH : NdArray;
  weightsHO : NdArray;
  activator : ActivationStrategy;
  inputSize : nat;
  hiddenSize : nat;
  outputSize : nat;
  LR : F
}.

Definition set_weightsIH (w : NdArray) (n : Network) : Network :=
  mkNetwork w (weightsHO n) (activator n)
            (inputSize n) (hiddenSize n) (outputSize n) (LR n).

Definition set_weightsHO (w : NdArray) (n : Network) : Network :=
  mkNetwork (weightsIH n) w (activator n)
            (inputSize n) (hiddenSize n) (outputSize n) (LR n).

Definition set_activator (a : ActivationStrategy) (n : Network) : Network :=
  mkNetwork (weightsIH n) (weightsHO n) a
            (inputSize n) (hiddenSize n) (outputSize n) (LR n).

(** ** Construction *)

(* private generateWeights(rows, columns) *)
Definition generateWeights (r c : nat) (random : nat -> F) (pos : nat)
  : NdArray * nat :=
  let (m, pos') := nj_random (r, c) random pos in
  (nd_subtract_num m num_half, pos').

(* new Network(inputSize, hiddenSize, outputSize, LR = 0.3); [Sigmoid] is the
   value of [new Sigmoid()] *)
Definition new_Network (Sigmoid : ActivationStrategy) (random : nat -> F)
    (inputSize hiddenSize outputSize : nat) (LR : option F) : Network :=
  let (wIH, pos) := generateWeights hiddenSize inputSize random 0 in
  let (wHO, _) := generateWeights outputSize hiddenSize random pos in
  mkNetwork wIH wHO Sigmoid inputSize hiddenSize outputSize
            (match LR with Some lr => lr | None => num_default_LR end).

(** ** Private methods *)

Local Open Scope method_scope.

(* private forwardPropagation(inputMatrix) *)
Definition forwardPropagation (inputMatrix : NdArray)
  : M Network IForwardResult :=
  this <- get ;;
  hiddenInputs <- liftC (nd_dot (weightsIH this) inputMatrix) ;;
  this <- get ;;
  let hiddenOutputs := execute (activator this) hiddenInputs in
  this <- get ;;
  finalInputs <- liftC (nd_dot (weightsHO this) hiddenOutputs) ;;
  this <- get ;;
  let finalOutputs := execute (activator this) finalInputs in
  ret {| hiddenOutputs := hiddenOutputs; finalOutputs := finalOutputs |}.

(* private calcAdditionalWeights(inputs, outputs, errors) *)
Definition calcAdditionalWeights (inputs outputs errors : NdArray)
  : M Network NdArray :=
  let ones := nj_ones (shape outputs) in
  weighted <- liftC (nd_multiply errors outputs) ;;
  complement <- liftC (nd_subtract ones outputs) ;;
  arg1 <- liftC (nd_multiply weighted complement) ;;
  let arg2 := nd_T inputs in
  product <- liftC (nd_dot arg1 arg2) ;;
  this <- get ;;
  ret (nd_multiply_num product (LR this)).

(* private backPropagation(inputMatrix, targetMatrix, result) *)
Definition backPropagation (inputMatrix targetMatrix : NdArray)
    (result : IForwardResult) : M Network unit :=
  let hiddenOutputs := hiddenOutputs result in
  let finalOutputs := finalOutputs result in
  outputErrors <- liftC (nd_subtract targetMatrix finalOutputs) ;;
  this <- get ;;
  hiddenErrors <- liftC (nd_dot (nd_T (weightsHO this)) outputErrors) ;;
  additionalHO <- calcAdditionalWeights hiddenOutputs finalOutputs outputErrors ;;
  additionalIH <- calcAdditionalWeights inputMatrix hiddenOutputs hiddenErrors ;;
  this <- get ;;
  newHO <- liftC (nd_add (weightsHO this) additionalHO) ;;
  modify (set_weightsHO newHO) ;;
  this <- get ;;
  newIH <- liftC (nd_add (weightsIH this) additionalIH) ;;
  modify (set_weightsIH newIH).

(* private trainStep(inputs, targets) *)
Definition trainStep (inputs targets : list F) : M Network unit :=
  let inputMatrix := nd_T (nj_array_reshape_1 inputs) in
  let targetMatrix := nd_T (nj_array_reshape_1 targets) in
  forwardResult <- forwardPropagation inputMatrix ;;
  backPropagation inputMatrix targetMatrix forwardResult.

(** ** Public methods *)

(* query(inputs) *)
Definition query (inputs : list F) : M Network NdArray :=
  let inputMatrix := nd_T (nj_array_reshape_1 inputs) in
  result <- forwardPropagation inputMatrix ;;
  ret (finalOutputs result).

(* trainSet[randIndex]: undefined (None) outside the array *)
Definition TrainSet_index (trainSet : TrainSet) (randIndex : Z)
  : option ITrainItem :=
  if (randIndex <? 0)%Z then None else nth_error trainSet (Z.to_nat randIndex).

Section Train.

(* getRandomInt(min, max) of ./utils, with the state it draws from *)
Variable Sampler : Type.
Variable getRandomInt : Z -> Z -> Sampler -> Z * Sampler.

Record World : Type := mkWorld {
  net : Network;
  sampler : Sampler
}.

Definition on_this {A : Type} (c : M Network A) : M World A :=
  fun w => let (r, n) := c (net w) in (r, mkWorld n (sampler w)).

Definition draw (lo hi : Z) : M World Z :=
  fun w => let (i, s) := getRandomInt lo hi (sampler w) in
           (Normal i, mkWorld (net w) s).

(* the body of the while loop of train *)
Definition train_body (trainSet : TrainSet) : M World unit :=
  randIndex <- draw 0 (Z.of_nat (length trainSet)) ;;
  match TrainSet_index trainSet randIndex with
  | None =>
      throw (TypeError "Cannot destructure property 'inputs' of undefined"%string)
  | Some item => on_this (trainStep (inputs item) (targets item))
  end.

(* while (counter > 0) { body; counter -= 1 }, by the number of rounds left *)
Fixpoint train_loop (trainSet : TrainSet) (rounds : nat) : M World unit :=
  match rounds with
  | O => ret tt
  | S rounds' => train_body trainSet ;; train_loop trainSet rounds'
  end.

(* train(trainSet, count, activator?) *)
Definition train (trainSet : TrainSet) (count : Z)
    (activator : option ActivationStrategy) : M World unit :=
  match activator with
  | Some a => on_this (modify (set_activator a))
  | None => ret tt
  end ;;
  train_loop trainSet (Z.to_nat count).

(* a call train(trainSet, count, activator?) as data, and the state after a
   sequence of such calls, whether a call returned or threw *)
Record TrainCall : Type := {
  call_trainSet : TrainSet;
  call_count : Z;
  call_activator : option ActivationStrategy
}.

Definition after_call (w : World) (c : TrainCall) : World :=
  snd (train (call_trainSet c) (call_count c) (call_activator c) w).

Definition after_calls (calls : list TrainCall) (w : World) : World :=
  fold_left after_call calls w.

(* the indices that the next [k] calls getRandomInt(lo, hi) return *)
Fixpoint draws (lo hi : Z) (k : nat) (s : Sampler) : list Z :=
  match k with
  | O => []
  | S k' => let (i, s') := getRandomInt lo hi s in i :: draws lo hi k' s'
  end.

End Train.

(** ** Preconditions of the specification *)

(* the shape invariant of the two weight matrices *)
Definition shapes_ok (n : Network) : Prop :=
  shape (weightsIH n) = (hiddenSize n, inputSize n) /\
  shape (weightsHO n) = (outputSize n, hiddenSize n).

(* an array whose cells fill its shape *)
Definition filled (m : NdArray) : Prop :=
  length (cells m) = rows m /\
  Forall (fun row => length row = cols m) (cells m).

(* the contract of ActivationStrategy.execute: same shape in and out *)
Definition keeps_shape (a : ActivationStrategy) : Prop :=
  forall m, shape (execute a m) = shape m.

(* a training item for a given network *)
Definition item_ok (n : Network) (item : ITrainItem) : Prop :=
  length (inputs item) = inputSize n /\
  length (targets item) = outputSize n.

(* what a training step leaves as it is: the shapes of the weights, the
   activator, the learning rate and the configured sizes *)
Definition step_frame (n n' : Network) : Prop :=
  shape (weightsIH n') = shape (weightsIH n) /\
  shape (weightsHO n') = shape (weightsHO n) /\
  activator n' = activator n /\ LR n' = LR n /\
  inputSize n' = inputSize n /\ hiddenSize n' = hiddenSize n /\
  outputSize n' = outputSize n.

(* two networks with the same weights, learning rate and activator *)
Definition same_parameters (n1 n2 : Network) : Prop :=
  weightsIH n1 = weightsIH n2 /\ weightsHO n1 = weightsHO n2 /\
  LR n1 = LR n2 /\ activator n1 = activator n2.

(** ** The backward pass in the words of the specification

    [outputErrors = targetColumn - finalOutputs],
    [hiddenErrors = weightsHO^T . outputErrors],
    [delta = LR . ((errors (.) outputs (.) (1 - outputs)) . inputs^T)],
    [weightsHO += deltaHO], [weightsIH += deltaIH]. *)

Definition mat_sub : NdArray -> NdArray -> NdArray := nd_zip num_sub.
Definition mat_add : NdArray -> NdArray -> NdArray := nd_zip num_add.
Definition hadamard : NdArray -> NdArray -> NdArray := nd_zip num_mul.
Definition transpose : NdArray -> NdArray := nd_T.
Definition all_ones (like : NdArray) : NdArray :=
  tabulate (rows like) (cols like) (fun _ _ => num1).
(* the scalar multiple of a matrix, each cell times [k] *)
Definition scale (k : F) (m : NdArray) : NdArray :=
  tabulate (rows m) (cols m) (fun i j => num_mul (nd_get m i j) k).

Definition spec_delta (lr : F) (errors outputs inputs : NdArray) : NdArray :=
  scale lr
    (mat_mul (hadamard (hadamard errors outputs)
                       (mat_sub (all_ones outputs) outputs))
             (transpose inputs)).

Definition spec_backPropagation (n : Network) (inputColumn targetColumn : NdArray)
    (r : IForwardResult) : Network :=
  let outputErrors := mat_sub targetColumn (finalOutputs r) in
  let hiddenErrors := mat_mul (transpose (weightsHO n)) outputErrors in
  let deltaHO := spec_delta (LR n) outputErrors (finalOutputs r) (hiddenOutputs r) in
  let deltaIH := spec_delta (LR n) hiddenErrors (hiddenOutputs r) inputColumn in
  mkNetwork (mat_add (weightsIH n) deltaIH) (mat_add (weightsHO n) deltaHO)
            (activator n) (inputSize n) (hiddenSize n) (outputSize n) (LR n).

(* the forward pass in the words of the specification *)
Definition spec_forwardPropagation (n : Network) (inputColumn : NdArray)
  : IForwardResult :=
  let hiddenInputs := mat_mul (weightsIH n) inputColumn in
  let hiddenOutputs := execute (activator n) hiddenInputs in
  let finalInputs := mat_mul (weightsHO n) hiddenOutputs in
  let finalOutputs := execute (activator n) finalInputs in
  {| hiddenOutputs := hiddenOutputs; finalOutputs := finalOutputs |}.

End Model.

Arguments NdArray F : clear implicits.
Arguments ActivationStrategy F : clear implicits.
Arguments Network F : clear implicits.
Arguments ITrainItem F : clear implicits.
Arguments TrainSet F : clear implicits.
Arguments IForwardResult F : clear implicits.
Arguments TrainCall F : clear implicits.
Arguments World F Sampler : clear implicits.

(** ** The reals as scalars, and the logistic activator

    Exact arithmetic: no rounding, no Infinity, no NaN.  The instance
    serves to apply the generic theorems to an example, and for statements
    that say they are about real numbers. *)

#[export] Instance R_JsNumber : JsNumber R := {|
  num0 := 0%R;
  num1 := 1%R;
  num_half := (1 / 2)%R;
  num_default_LR := (3 / 10)%R;
  num_add := Rplus;
  num_sub := Rminus;
  num_mul := Rmult;
  num_nan := 0%R   (* the reals have no NaN; read only outside a shape *)
|}.

Definition logistic (x : R) : R := (1 / (1 + exp (- x)))%R.

(** Modelled from the spec: the class [Sigmoid] of [./activators], which is
    not among the sources; the specification calls it the logistic sigmoid,
    applied elementwise with the same shape in and out. *)
Definition Sigmoid : ActivationStrategy R :=
  {| execute := nd_map logistic |}.

(** ** A concrete network and a concrete sampler *)

(* Network(2, 2, 1, 0.5) with weightsIH = [[0.1, 0.2], [0.3, 0.4]] and
   weightsHO = [[0.5, 0.6]] *)
Definition example_net : Network R :=
  mkNetwork (mkNd 2 2 [[1 / 10; 2 / 10]; [3 / 10; 4 / 10]]%R)
            (mkNd 1 2 [[5 / 10; 6 / 10]]%R)
            Sigmoid 2 2 1 (1 / 2)%R.

Definition example_item : ITrainItem R :=
  {| inputs := [1; 0]%R; targets := [1]%R |}.

Definition example_world : World R nat := mkWorld example_net 0%nat.

(** ** Exact rationals as scalars, for running the methods *)

#[export] Instance Q_JsNumber : JsNumber Q := {|
  num0 := 0%Q;
  num1 := 1%Q;
  num_half := (1 # 2)%Q;
  num_default_LR := (3 # 10)%Q;
  num_add := fun a b => Qred (a + b);
  num_sub := fun a b => Qred (a - b);
  num_mul := fun a b => Qred (a * b);
  num_nan := 0%Q   (* the rationals have no NaN; read only outside a shape *)
|}.

(* the same network over the rationals, with an activator that returns its
   argument *)
Definition rational_net : Network Q :=
  mkNetwork (mkNd 2 2 [[1 # 10; 2 # 10]; [3 # 10; 4 # 10]]%Q)
            (mkNd 1 2 [[5 # 10; 6 # 10]]%Q)
            {| execute := fun m => m |} 2 2 1 (1 # 2)%Q.

(* train([example_item], 3) *)
Definition example_call : TrainCall R :=
  {| call_trainSet := [example_item];
     call_count := 3%Z;
     call_activator := None |}.

(* a sampler that walks through the index range *)
Definition round_robin (lo hi : Z) (s : nat) : Z * nat :=
  ((lo + Z.of_nat s mod (hi - lo))%Z, S s).

(* a sampler that replays a recorded sequence of indices *)
Definition replay (lo hi : Z) (s : list Z) : Z * list Z :=
  match s with
  | [] => (lo, [])
  | i :: s' => (i, s')
  end.

(** ** Numbers with NaN

    The reals leave out what JavaScript numbers add to them.  [Num] keeps
    one such value, NaN, with the rule that every operation on NaN gives
    NaN; finite arithmetic stays exact. *)

Inductive Num : Type :=
| Fin (r : R)
| NaN.

Definition Num_lift2 (op : R -> R -> R) (a b : Num) : Num :=
  match a, b with
  | Fin x, Fin y => Fin (op x y)
  | _, _ => NaN
  end.

#[export] Instance Num_JsNumber : JsNumber Num := {|
  num0 := Fin 0%R;
  num1 := Fin 1%R;
  num_half := Fin (1 / 2)%R;
  num_default_LR := Fin (3 / 10)%R;
  num_add := Num_lift2 Rplus;
  num_sub := Num_lift2 Rminus;
  num_mul := Num_lift2 Rmult;
  num_nan := NaN
|}.

(* 1 / (1 + Math.exp(-x)) on such numbers *)
Definition Num_logistic (x : Num) : Num :=
  match x with
  | Fin r => Fin (logistic r)
  | NaN => NaN
  end.

(* the open interval (0, 1) *)
Definition in_unit_interval (x : Num) : Prop :=
  match x with
  | Fin r => (0 < r < 1)%R
  | NaN => False
  end.

(** Modelled from the spec: the class [Sigmoid] of [./activators] once more,
    the logistic sigmoid applied elementwise, on numbers with NaN. *)
Definition Sigmoid_Num : ActivationStrategy Num :=
  {| execute := nd_map Num_logistic |}.

(* Network(2, 2, 1, 0.5) with the weights of the example network *)
Definition Num_net : Network Num :=
  mkNetwork (mkNd 2 2 [[Fin (1 / 10); Fin (2 / 10)];
                       [Fin (3 / 10); Fin (4 / 10)]]%R)
            (mkNd 1 2 [[Fin (5 / 10); Fin (6 / 10)]]%R)
            Sigmoid_Num 2 2 1 (Fin (1 / 2)%R).

(* an activator other than the one of the rational network *)
Definition blank_activator : ActivationStrategy Q :=
  {| execute := fun _ => mkNd 0 0 [] |}.

(** ** Further notions used to state properties of the methods *)

(* an activator that applies a function of one number to every cell *)
Definition elementwise {F : Type} (sigma : F -> F) : ActivationStrategy F :=
  {| execute := nd_map sigma |}.

(* the state of the sampler after [k] calls getRandomInt(lo, hi) *)
Fixpoint sampler_after {Sampler : Type}
    (getRandomInt : Z -> Z -> Sampler -> Z * Sampler)
    (lo hi : Z) (k : nat) (s : Sampler) : Sampler :=
  match k with
  | O => s
  | S k' => sampler_after getRandomInt lo hi k' (snd (getRandomInt lo hi s))
  end.

(* a sampler that, asked for an index of an array of [len] items, always
   returns one *)
Definition draws_in_range {Sampler : Type}
    (getRandomInt : Z -> Z -> Sampler -> Z * Sampler) (len : nat) : Prop :=
  forall s, (0 <= fst (getRandomInt 0%Z (Z.of_nat len) s) < Z.of_nat len)%Z.

(* both weight matrices hold a cell for every position of their shape *)
Definition filled_weights {F : Type} (n : Network F) : Prop :=
  filled (weightsIH n) /\ filled (weightsHO n).

(* a train call whose activator, if it passes one, keeps shapes *)
Definition call_keeps_shape {F : Type} `{JsNumber F} (c : TrainCall F) : Prop :=
  match call_activator c with
  | Some a => keeps_shape a
  | None => True
  end.

(* a training item for the rational network *)
Definition rational_item : ITrainItem Q :=
  {| inputs := [1; 0]%Q; targets := [1]%Q |}.

(** * Properties *)

Unset Implicit Arguments.

(* case analysis on the array operations that may throw *)
Ltac destruct_ops :=
  repeat (simpl;
    match goal with
    | |- context [nd_elementwise ?op ?a ?b] =>
        destruct (nd_elementwise op a b) eqn:?
    | |- context [nd_dot ?a ?b] =>
        destruct (nd_dot a b) eqn:?
    end).

(** ** The methods on concrete inputs *)

(* forward pass on [1, 0]: hidden outputs (0.1, 0.3), final output 0.23 *)
Example query_rational_net :
  query [1; 0]%Q rational_net =
  (Normal (mkNd 1 1 [[23 # 100]]%Q), rational_net).
Proof. vm_compute. reflexivity. Qed.

(* one training step towards the target 1:
   outputErrors = 0.77, hiddenErrors = (0.385, 0.462),
   deltaHO = 0.5 * 0.77 * 0.23 * 0.77 * (0.1, 0.3),
   deltaIH = 0.5 * (0.385 * 0.1 * 0.9, 0.462 * 0.3 * 0.7) (1, 0) *)
Example trainStep_rational_net :
  trainStep [1; 0]%Q [1]%Q rational_net =
  (Normal tt,
   mkNetwork
     (mkNd 2 2 [[4693 # 40000; 1 # 5]; [34851 # 100000; 2 # 5]]%Q)
     (mkNd 1 2 [[10136367 # 20000000; 12409101 # 20000000]]%Q)
     (activator rational_net) 2 2 1 (1 # 2)%Q).
Proof. vm_compute. reflexivity. Qed.

(* the hidden errors of that step come from the old weightsHO: with the
   updated weightsHO they would be different *)
Example hiddenErrors_from_old_weightsHO :
  let outputErrors := mkNd 1 1 [[77 # 100]]%Q in
  let n' := snd (trainStep [1; 0]%Q [1]%Q rational_net) in
  mat_mul (transpose (weightsHO rational_net)) outputErrors =
    mkNd 2 1 [[77 # 200]; [231 # 500]]%Q /\
  mat_mul (transpose (weightsHO n')) outputErrors <>
  mat_mul (transpose (weightsHO rational_net)) outputErrors.
Proof. split; vm_compute; [reflexivity|discriminate]. Qed.

(* a target of the wrong length: the subtraction of the final outputs
   throws and nothing is written *)
Example trainStep_wrong_target :
  trainStep [1; 0]%Q [1; 2]%Q rational_net =
  (Throw (Error "cwise: Arrays do not all have the same shape!"),
   rational_net).
Proof. vm_compute. reflexivity. Qed.

(* weights of shapes that do not fit each other (no constructor makes them):
   weightsHO has been written when the addition to weightsIH throws *)
Example trainStep_unfit_weights :
  let widen (m : NdArray Q) :=
    if Qeq_bool (nd_get m 0 0) 1 then mkNd 2 1 [[1]; [1]]%Q else m in
  let n := mkNetwork (mkNd 1 1 [[1]]%Q) (mkNd 1 2 [[1; 1]]%Q)
                     {| execute := widen |} 1 1 1 1%Q in
  exists n',
    trainStep [1]%Q [1]%Q n =
    (Throw (Error "cwise: Arrays do not all have the same shape!"), n') /\
    weightsIH n' = weightsIH n /\
    weightsHO n' <> weightsHO n.
Proof.
  eexists. split; [vm_compute; reflexivity|]. simpl.
  split; [reflexivity|discriminate].
Qed.

Section Arrays.

Context {F : Type} `{JsNumber F}.

Lemma shape_tabulate (r c : nat) (f : nat -> nat -> F) :
  shape (tabulate r c f) = (r, c).
Proof. reflexivity. Qed.

Lemma filled_tabulate (r c : nat) (f : nat -> nat -> F) :
  filled (tabulate r c f).
Proof.
  split; simpl.
  - now rewrite length_map, length_seq.
  - apply Forall_forall. intros row Hrow.
    apply in_map_iff in Hrow. destruct Hrow as [i [<- _]].
    now rewrite length_map, length_seq.
Qed.

Lemma shape_nd_zip (op : F -> F -> F) (a b : NdArray F) :
  shape (nd_zip op a b) = shape a.
Proof. reflexivity. Qed.

Lemma shape_nd_map (f : F -> F) (m : NdArray F) :
  shape (nd_map f m) = shape m.
Proof. reflexivity. Qed.

Lemma filled_nd_map (f : F -> F) (m : NdArray F) :
  filled m -> filled (nd_map f m).
Proof.
  intros [Hr Hc]. split; simpl.
  - now rewrite length_map.
  - apply Forall_map. revert Hc. apply Forall_impl.
    intros row Hrow. now rewrite length_map.
Qed.

Lemma shape_column (xs : list F) :
  shape (nd_T (nj_array_reshape_1 xs)) = (length xs, 1).
Proof. reflexivity. Qed.

Lemma shape_mat_mul (a b : NdArray F) :
  shape (mat_mul a b) = (rows a, cols b).
Proof. reflexivity. Qed.

Lemma nd_dot_normal (a b : NdArray F) :
  cols a = rows b -> nd_dot a b = Normal (mat_mul a b).
Proof.
  intros E. unfold nd_dot. now rewrite (proj2 (Nat.eqb_eq _ _) E).
Qed.

Lemma nd_dot_throw (a b : NdArray F) :
  cols a <> rows b ->
  nd_dot a b =
  Throw (ValueError "cannot compute the matrix product of given arrays").
Proof.
  intros E. unfold nd_dot. now rewrite (proj2 (Nat.eqb_neq _ _) E).
Qed.

Lemma nd_elementwise_normal (op : F -> F -> F) (a b : NdArray F) :
  shape a = shape b -> nd_elementwise op a b = Normal (nd_zip op a b).
Proof.
  unfold shape, nd_elementwise, same_shape. intros E. injection E as -> ->.
  now rewrite !Nat.eqb_refl.
Qed.

Lemma nd_elementwise_throw (op : F -> F -> F) (a b : NdArray F) :
  shape a <> shape b ->
  nd_elementwise op a b =
  Throw (Error "cwise: Arrays do not all have the same shape!").
Proof.
  unfold shape, nd_elementwise, same_shape. intros E.
  destruct (Nat.eqb (rows a) (rows b)) eqn:Er; [|reflexivity].
  destruct (Nat.eqb (cols a) (cols b)) eqn:Ec; [|reflexivity].
  apply Nat.eqb_eq in Er, Ec. exfalso. apply E. congruence.
Qed.

Lemma nd_elementwise_inv (op : F -> F -> F) (a b m : NdArray F) :
  nd_elementwise op a b = Normal m -> shape a = shape b /\ m = nd_zip op a b.
Proof.
  unfold shape, nd_elementwise, same_shape.
  destruct (Nat.eqb (rows a) (rows b)) eqn:Er; [|discriminate].
  destruct (Nat.eqb (cols a) (cols b)) eqn:Ec; [|discriminate].
  apply Nat.eqb_eq in Er, Ec. simpl. intros E. injection E as <-.
  split; congruence.
Qed.

Lemma nd_elementwise_shape (op : F -> F -> F) (a b m : NdArray F) :
  nd_elementwise op a b = Normal m -> shape m = shape a.
Proof.
  intros E. apply nd_elementwise_inv in E. destruct E as [_ ->]. reflexivity.
Qed.

Lemma nd_dot_inv (a b m : NdArray F) :
  nd_dot a b = Normal m -> cols a = rows b /\ m = mat_mul a b.
Proof.
  unfold nd_dot. destruct (Nat.eqb (cols a) (rows b)) eqn:E; [|discriminate].
  apply Nat.eqb_eq in E. intros En. injection En as <-. now split.
Qed.

Lemma shape_eq (m : NdArray F) (r c : nat) :
  shape m = (r, c) -> rows m = r /\ cols m = c.
Proof. unfold shape. intros E. now injection E. Qed.

End Arrays.

Section Methods.

Context {F : Type} `{JsNumber F}.

(** The forward pass never writes to the network, whether it returns or
    throws. *)
Lemma forwardPropagation_frame (x : NdArray F) (n : Network F) :
  snd (forwardPropagation x n) = n.
Proof.
  unfold forwardPropagation, bind, get, liftC, ret.
  destruct (nd_dot (weightsIH n) x) as [hi|e]; [|reflexivity].
  destruct (nd_dot (weightsHO n) (execute (activator n) hi)); reflexivity.
Qed.

(** What the forward pass returns, when it returns. *)
Lemma forwardPropagation_returns (x : NdArray F) (n : Network F)
    (r : IForwardResult F) :
  fst (forwardPropagation x n) = Normal r ->
  r = spec_forwardPropagation n x.
Proof.
  unfold forwardPropagation, spec_forwardPropagation, bind, get, liftC, ret.
  unfold nd_dot.
  destruct (Nat.eqb (cols (weightsIH n)) (rows x)); [|discriminate].
  destruct (Nat.eqb (cols (weightsHO n))
                    (rows (execute (activator n) (mat_mul (weightsIH n) x))));
    [|discriminate].
  simpl. intros E. now injection E.
Qed.

(** Under its precondition the forward pass returns. *)
Lemma forwardPropagation_total (x : NdArray F) (n : Network F) :
  shapes_ok n -> keeps_shape (activator n) -> shape x = (inputSize n, 1) ->
  forwardPropagation x n = (Normal (spec_forwardPropagation n x), n).
Proof.
  intros [HIH HHO] Hact Hx.
  apply shape_eq in HIH, HHO, Hx.
  destruct HIH as [rIH cIH], HHO as [rHO cHO], Hx as [rx cx].
  unfold forwardPropagation, spec_forwardPropagation, bind, get, liftC, ret.
  rewrite nd_dot_normal by congruence.
  rewrite nd_dot_normal; [reflexivity|].
  pose proof (Hact (mat_mul (weightsIH n) x)) as E.
  apply shape_eq in E. simpl in E. destruct E as [E _]. congruence.
Qed.

End Methods.

Section BackwardPass.

Context {F : Type} `{JsNumber F}.

(** Under its precondition the backward pass returns, and the network it
    leaves is the one the specification describes. *)
Lemma backPropagation_total (n : Network F) (x t : NdArray F)
    (r : IForwardResult F) :
  shape t = shape (finalOutputs r) ->
  rows (weightsHO n) = rows t ->
  shape (hiddenOutputs r) = (cols (weightsHO n), cols t) ->
  cols t = cols x ->
  shape (weightsIH n) = (cols (weightsHO n), rows x) ->
  backPropagation x t r n = (Normal tt, spec_backPropagation n x t r).
Proof.
  intros Hfo Ht Hho Hx HIH.
  pose proof Hfo as Hfo'. unfold shape in Hfo'. injection Hfo' as Hfo1 Hfo2.
  apply shape_eq in Hho, HIH. destruct Hho as [Hho1 Hho2], HIH as [HIH1 HIH2].
  unfold backPropagation, calcAdditionalWeights, bind, get, liftC, ret, modify,
    nd_add, nd_subtract, nd_multiply.
  repeat first
    [ rewrite nd_elementwise_normal by (unfold shape; simpl; congruence)
    | rewrite nd_dot_normal by (simpl; congruence) ].
  reflexivity.
Qed.

End BackwardPass.

(** C1. Every call of backPropagation that meets the precondition (column
    vectors of the configured lengths) returns with
    weightsHO = old weightsHO + deltaHO and weightsIH = old weightsIH + deltaIH,
    where outputErrors = target - finalOutputs,
    hiddenErrors = (old weightsHO)^T . outputErrors,
    deltaHO = LR . ((outputErrors (.) finalOutputs (.) (1 - finalOutputs)) . hiddenOutputs^T),
    deltaIH = LR . ((hiddenErrors (.) hiddenOutputs (.) (1 - hiddenOutputs)) . input^T):
    the hidden errors are taken from the weights before the update. *)
Theorem backPropagation_updates {F : Type} `{JsNumber F}
    (n : Network F) (inputColumn targetColumn : NdArray F)
    (r : IForwardResult F) :
  shapes_ok n ->
  shape inputColumn = (inputSize n, 1) ->
  shape targetColumn = (outputSize n, 1) ->
  shape (hiddenOutputs r) = (hiddenSize n, 1) ->
  shape (finalOutputs r) = (outputSize n, 1) ->
  let outputErrors := mat_sub targetColumn (finalOutputs r) in
  let hiddenErrors := mat_mul (transpose (weightsHO n)) outputErrors in
  let deltaHO :=
    scale (LR n)
      (mat_mul (hadamard (hadamard outputErrors (finalOutputs r))
                         (mat_sub (all_ones (finalOutputs r)) (finalOutputs r)))
               (transpose (hiddenOutputs r))) in
  let deltaIH :=
    scale (LR n)
      (mat_mul (hadamard (hadamard hiddenErrors (hiddenOutputs r))
                         (mat_sub (all_ones (hiddenOutputs r)) (hiddenOutputs r)))
               (transpose inputColumn)) in
  exists n' : Network F,
    backPropagation inputColumn targetColumn r n = (Normal tt, n') /\
    weightsHO n' = mat_add (weightsHO n) deltaHO /\
    weightsIH n' = mat_add (weightsIH n) deltaIH /\
    activator n' = activator n /\ LR n' = LR n.
Proof.
  intros [HIH HHO] Hx Ht Hho Hfo.
  pose proof (shape_eq _ _ _ HHO) as [rHO cHO].
  pose proof (shape_eq _ _ _ Hx) as [rx cx].
  pose proof (shape_eq _ _ _ Ht) as [rt ct].
  intros outputErrors hiddenErrors deltaHO deltaIH.
  exists (spec_backPropagation n inputColumn targetColumn r).
  split; [|repeat split].
  apply backPropagation_total; congruence.
Qed.

(** C1 at the network of the worked example, after its own forward pass. *)
Lemma backPropagation_updates_witness :
  let x := nd_T (nj_array_reshape_1 (inputs example_item)) in
  let t := nd_T (nj_array_reshape_1 (targets example_item)) in
  let r := spec_forwardPropagation example_net x in
  exists n' : Network R,
    backPropagation x t r example_net = (Normal tt, n') /\
    weightsHO n' =
      mat_add (weightsHO example_net)
        (spec_delta (LR example_net) (mat_sub t (finalOutputs r))
                    (finalOutputs r) (hiddenOutputs r)) /\
    weightsIH n' =
      mat_add (weightsIH example_net)
        (spec_delta (LR example_net)
           (mat_mul (transpose (weightsHO example_net))
                    (mat_sub t (finalOutputs r)))
           (hiddenOutputs r) x) /\
    activator n' = activator example_net /\ LR n' = LR example_net.
Proof.
  intros x t r.
  apply (backPropagation_updates example_net x t r).
  - split; reflexivity.
  - reflexivity.
  - reflexivity.
  - reflexivity.
  - reflexivity.
Defined.

(** C2. forwardPropagation writes nothing to the network, whatever it is
    called with; for a column vector of length inputSize it returns
    hiddenOutputs = execute (weightsIH . input) and
    finalOutputs = execute (weightsHO . hiddenOutputs); and whenever it
    returns, this is what it returns. *)
Theorem forwardPropagation_correct {F : Type} `{JsNumber F}
    (n : Network F) (inputColumn : NdArray F) :
  let hiddenOutputs :=
    execute (activator n) (mat_mul (weightsIH n) inputColumn) in
  let finalOutputs :=
    execute (activator n) (mat_mul (weightsHO n) hiddenOutputs) in
  snd (forwardPropagation inputColumn n) = n /\
  (shapes_ok n -> keeps_shape (activator n) ->
   shape inputColumn = (inputSize n, 1) ->
   fst (forwardPropagation inputColumn n) =
   Normal {| hiddenOutputs := hiddenOutputs; finalOutputs := finalOutputs |}) /\
  (forall r, fst (forwardPropagation inputColumn n) = Normal r ->
   r = {| hiddenOutputs := hiddenOutputs; finalOutputs := finalOutputs |}).
Proof.
  intros hiddenOutputs finalOutputs. split; [|split].
  - apply forwardPropagation_frame.
  - intros Hn Hact Hx.
    now rewrite (forwardPropagation_total _ _ Hn Hact Hx).
  - apply forwardPropagation_returns.
Qed.

(** C2 at the network of the worked example and the input [1, 0]. *)
Lemma forwardPropagation_correct_witness :
  let x := nd_T (nj_array_reshape_1 [1; 0]%R) in
  snd (forwardPropagation x example_net) = example_net /\
  fst (forwardPropagation x example_net) =
  Normal {| hiddenOutputs :=
              execute Sigmoid (mat_mul (weightsIH example_net) x);
            finalOutputs :=
              execute Sigmoid
                (mat_mul (weightsHO example_net)
                   (execute Sigmoid (mat_mul (weightsIH example_net) x))) |}.
Proof.
  intros x.
  destruct (forwardPropagation_correct example_net x) as (Hframe & Hres & _).
  split; [exact Hframe|].
  apply Hres.
  - split; reflexivity.
  - intros m. reflexivity.
  - reflexivity.
Defined.

Section Training.

Context {F : Type} `{JsNumber F}.

Lemma step_frame_refl (n : Network F) : step_frame n n.
Proof. repeat split. Qed.

Lemma step_frame_trans (n1 n2 n3 : Network F) :
  step_frame n1 n2 -> step_frame n2 n3 -> step_frame n1 n3.
Proof.
  unfold step_frame.
  intros (a1 & a2 & a3 & a4 & a5 & a6 & a7) (b1 & b2 & b3 & b4 & b5 & b6 & b7).
  repeat split; congruence.
Qed.

Lemma backPropagation_step_frame (n : Network F) (x t : NdArray F)
    (r : IForwardResult F) :
  step_frame n (snd (backPropagation x t r n)).
Proof.
  unfold backPropagation, calcAdditionalWeights, bind, get, liftC, ret, modify,
    nd_add, nd_subtract, nd_multiply.
  destruct_ops; simpl; try apply step_frame_refl;
    repeat split; simpl; eauto using nd_elementwise_shape.
Qed.

Lemma trainStep_step_frame (n : Network F) (xs ts : list F) :
  step_frame n (snd (trainStep xs ts n)).
Proof.
  unfold trainStep, bind.
  pose proof (forwardPropagation_frame (nd_T (nj_array_reshape_1 xs)) n) as E.
  destruct (forwardPropagation (nd_T (nj_array_reshape_1 xs)) n) as [[r|e] n1].
  - simpl in E. subst n1. apply backPropagation_step_frame.
  - simpl in E. subst n1. apply step_frame_refl.
Qed.

(** query reads the network and writes nothing. *)
Lemma query_frame (n : Network F) (xs : list F) :
  snd (query xs n) = n.
Proof.
  unfold query, bind, ret.
  pose proof (forwardPropagation_frame (nd_T (nj_array_reshape_1 xs)) n) as E.
  destruct (forwardPropagation (nd_T (nj_array_reshape_1 xs)) n) as [[r|e] n1];
    exact E.
Qed.

Lemma query_total (n : Network F) (xs : list F) :
  shapes_ok n -> keeps_shape (activator n) -> length xs = inputSize n ->
  query xs n =
  (Normal (finalOutputs
             (spec_forwardPropagation n (nd_T (nj_array_reshape_1 xs)))), n).
Proof.
  intros Hn Hact Hlen. unfold query, bind, ret.
  rewrite (forwardPropagation_total _ _ Hn Hact); [reflexivity|].
  rewrite shape_column. now rewrite Hlen.
Qed.

Lemma query_shape (n : Network F) (xs : list F) :
  shapes_ok n -> keeps_shape (activator n) ->
  shape (finalOutputs
           (spec_forwardPropagation n (nd_T (nj_array_reshape_1 xs))))
  = (outputSize n, 1).
Proof.
  intros [HIH HHO] Hact. unfold spec_forwardPropagation. simpl.
  rewrite !Hact, shape_mat_mul.
  apply shape_eq in HHO. destruct HHO as [-> _].
  f_equal.
  pose proof (Hact (mat_mul (weightsIH n) (nd_T (nj_array_reshape_1 xs)))) as E.
  apply shape_eq in E. simpl in E. now destruct E as [_ ->].
Qed.

Lemma query_throws (n : Network F) (xs : list F) :
  cols (weightsIH n) = inputSize n -> length xs <> inputSize n ->
  query xs n =
  (Throw (ValueError "cannot compute the matrix product of given arrays"), n).
Proof.
  intros Hn Hlen.
  unfold query, forwardPropagation, bind, get, liftC, ret.
  rewrite nd_dot_throw; [reflexivity|].
  simpl. congruence.
Qed.

Section WithSampler.

Context {Sampler : Type}.
Variable getRandomInt : Z -> Z -> Sampler -> Z * Sampler.

(** The recursion on the number of rounds is the while loop on [counter]. *)
Lemma train_loop_while (trainSet : TrainSet F) (counter : Z) :
  train_loop getRandomInt trainSet (Z.to_nat counter) =
  if (0 <? counter)%Z
  then bind (train_body getRandomInt trainSet)
            (fun _ => train_loop getRandomInt trainSet (Z.to_nat (counter - 1)))
  else ret tt.
Proof.
  destruct (0 <? counter)%Z eqn:E.
  - apply Z.ltb_lt in E.
    replace (Z.to_nat counter) with (S (Z.to_nat (counter - 1))) by lia.
    reflexivity.
  - apply Z.ltb_ge in E.
    replace (Z.to_nat counter) with O by lia. reflexivity.
Qed.

Lemma train_body_step_frame (trainSet : TrainSet F) (w : World F Sampler) :
  step_frame (net w) (net (snd (train_body getRandomInt trainSet w))).
Proof.
  unfold train_body, bind, draw, throw, on_this.
  destruct (getRandomInt 0 (Z.of_nat (length trainSet)) (sampler w)) as [i s].
  destruct (TrainSet_index trainSet i) as [item|]; simpl.
  - pose proof (trainStep_step_frame (net w) (inputs item) (targets item)) as E.
    destruct (trainStep (inputs item) (targets item) (net w)) as [[[]|e] n'];
      exact E.
  - apply step_frame_refl.
Qed.

Lemma train_loop_step_frame (trainSet : TrainSet F) (rounds : nat) :
  forall w : World F Sampler,
  step_frame (net w) (net (snd (train_loop getRandomInt trainSet rounds w))).
Proof.
  induction rounds as [|k IH]; intros w; simpl.
  - apply step_frame_refl.
  - unfold bind.
    pose proof (train_body_step_frame trainSet w) as E.
    destruct (train_body getRandomInt trainSet w) as [[[]|e] w1]; simpl in E.
    + eapply step_frame_trans; [exact E|apply IH].
    + exact E.
Qed.

(** Passing an activator is storing it and then training without one. *)
Lemma train_Some (trainSet : TrainSet F) (count : Z)
    (a : ActivationStrategy F) (w : World F Sampler) :
  train getRandomInt trainSet count (Some a) w =
  train getRandomInt trainSet count None
        (mkWorld (set_activator a (net w)) (sampler w)).
Proof. reflexivity. Qed.

Lemma train_None_step_frame (trainSet : TrainSet F) (count : Z)
    (w : World F Sampler) :
  step_frame (net w) (net (snd (train getRandomInt trainSet count None w))).
Proof.
  unfold train, bind, ret. apply train_loop_step_frame.
Qed.

Lemma train_shapes (trainSet : TrainSet F) (count : Z)
    (act : option (ActivationStrategy F)) (w : World F Sampler) :
  let w' := snd (train getRandomInt trainSet count act w) in
  shape (weightsIH (net w')) = shape (weightsIH (net w)) /\
  shape (weightsHO (net w')) = shape (weightsHO (net w)).
Proof.
  destruct act as [a|]; simpl.
  - rewrite train_Some.
    destruct (train_None_step_frame trainSet count
                (mkWorld (set_activator a (net w)) (sampler w)))
      as (E1 & E2 & _).
    split; assumption.
  - destruct (train_None_step_frame trainSet count w) as (E1 & E2 & _).
    split; assumption.
Qed.

Lemma after_calls_shapes (calls : list (TrainCall F)) :
  forall w : World F Sampler,
  let w' := after_calls getRandomInt calls w in
  shape (weightsIH (net w')) = shape (weightsIH (net w)) /\
  shape (weightsHO (net w')) = shape (weightsHO (net w)).
Proof.
  induction calls as [|c calls IH]; intros w; simpl.
  - split; reflexivity.
  - destruct (IH (after_call getRandomInt w c)) as [E1 E2].
    destruct (train_shapes (call_trainSet c) (call_count c)
                (call_activator c) w) as [E3 E4].
    fold (after_call getRandomInt w c) in E3, E4.
    split; congruence.
Qed.

(** With nothing to do the loop is not entered. *)
Lemma train_zero (trainSet : TrainSet F) (count : Z)
    (act : option (ActivationStrategy F)) (w : World F Sampler) :
  (count <= 0)%Z ->
  train getRandomInt trainSet count act w =
  (Normal tt,
   match act with
   | Some a => mkWorld (set_activator a (net w)) (sampler w)
   | None => w
   end).
Proof.
  intros Hc. unfold train.
  replace (Z.to_nat count) with O by lia.
  destruct act as [a|]; reflexivity.
Qed.

End WithSampler.

End Training.

Section Determinism.

Context {F : Type} `{JsNumber F}.

(** A training step reads the network only through its weights, learning
    rate and activator. *)
Lemma trainStep_same_parameters (n1 n2 : Network F) (xs ts : list F) :
  same_parameters n1 n2 ->
  fst (trainStep xs ts n1) = fst (trainStep xs ts n2) /\
  same_parameters (snd (trainStep xs ts n1)) (snd (trainStep xs ts n2)).
Proof.
  destruct n1 as [IH1 HO1 a1 i1 h1 o1 lr1], n2 as [IH2 HO2 a2 i2 h2 o2 lr2].
  unfold same_parameters. simpl. intros (-> & -> & -> & ->).
  unfold trainStep, forwardPropagation, backPropagation, calcAdditionalWeights,
    bind, get, liftC, ret, modify, nd_add, nd_subtract, nd_multiply. simpl.
  destruct_ops; simpl; repeat split.
Qed.

Lemma train_loop_same_draws {S1 S2 : Type}
    (g1 : Z -> Z -> S1 -> Z * S1) (g2 : Z -> Z -> S2 -> Z * S2)
    (trainSet : TrainSet F) (rounds : nat) :
  forall (w1 : World F S1) (w2 : World F S2),
  same_parameters (net w1) (net w2) ->
  draws g1 0 (Z.of_nat (length trainSet)) rounds (sampler w1) =
  draws g2 0 (Z.of_nat (length trainSet)) rounds (sampler w2) ->
  fst (train_loop g1 trainSet rounds w1) =
  fst (train_loop g2 trainSet rounds w2) /\
  same_parameters (net (snd (train_loop g1 trainSet rounds w1)))
                  (net (snd (train_loop g2 trainSet rounds w2))).
Proof.
  induction rounds as [|k IH]; intros w1 w2 Hn Hd; simpl.
  - split; [reflexivity|exact Hn].
  - simpl in Hd. unfold bind, train_body, bind, draw, throw, on_this.
    destruct (g1 0%Z (Z.of_nat (length trainSet)) (sampler w1)) as [j1 s1].
    destruct (g2 0%Z (Z.of_nat (length trainSet)) (sampler w2)) as [j2 s2].
    injection Hd as <- Hd.
    destruct (TrainSet_index trainSet j1) as [item|]; simpl.
    + destruct (trainStep_same_parameters (net w1) (net w2)
                  (inputs item) (targets item) Hn) as [Hr Hn'].
      destruct (trainStep (inputs item) (targets item) (net w1))
        as [[[]|e1] n1'];
      destruct (trainStep (inputs item) (targets item) (net w2))
        as [[[]|e2] n2']; simpl in Hr, Hn'; try discriminate.
      * apply IH; assumption.
      * split; assumption.
    + split; [reflexivity|exact Hn].
Qed.

End Determinism.

Section Logistic.

Lemma logistic_range (x : R) : (0 < logistic x < 1)%R.
Proof.
  unfold logistic.
  pose proof (exp_pos (- x)) as He.
  split.
  - apply Rdiv_lt_0_compat; lra.
  - apply (Rmult_lt_reg_r (1 + exp (- x))); [lra|].
    unfold Rdiv. rewrite Rmult_assoc, Rinv_l by lra. lra.
Qed.

End Logistic.

Section Calls.

Context {F : Type} `{JsNumber F} {Sampler : Type}.
Variable getRandomInt : Z -> Z -> Sampler -> Z * Sampler.

Lemma TrainSet_index_nil (i : Z) : TrainSet_index (@nil (ITrainItem F)) i = None.
Proof.
  unfold TrainSet_index. destruct (i <? 0)%Z; [reflexivity|].
  now destruct (Z.to_nat i).
Qed.

Lemma after_calls_activator (calls : list (TrainCall F)) :
  Forall (fun c => call_activator c = None) calls ->
  forall w : World F Sampler,
  activator (net (after_calls getRandomInt calls w)) = activator (net w).
Proof.
  induction 1 as [|c calls Hc _ IH]; intros w; simpl.
  - reflexivity.
  - fold (after_calls getRandomInt calls (after_call getRandomInt w c)).
    rewrite IH. unfold after_call. rewrite Hc.
    now destruct (train_None_step_frame getRandomInt (call_trainSet c)
                    (call_count c) w) as (_ & _ & E & _).
Qed.

End Calls.

(** C3. A network constructed with positive sizes has weightsIH of shape
    (hiddenSize, inputSize) and weightsHO of shape (outputSize, hiddenSize),
    and both shapes are the same after any sequence of train calls whose
    training items have inputSize inputs and outputSize targets. *)
Theorem weight_shapes_invariant {F : Type} `{JsNumber F} {Sampler : Type}
    (getRandomInt : Z -> Z -> Sampler -> Z * Sampler)
    (defaultActivator : ActivationStrategy F) (random : nat -> F)
    (inputSize hiddenSize outputSize : nat) (LR : option F)
    (s : Sampler) (calls : list (TrainCall F)) :
  0 < inputSize -> 0 < hiddenSize -> 0 < outputSize ->
  (forall c item, In c calls -> In item (call_trainSet c) ->
                  length (inputs item) = inputSize /\
                  length (targets item) = outputSize) ->
  let n0 := new_Network defaultActivator random
                        inputSize hiddenSize outputSize LR in
  let w := after_calls getRandomInt calls (mkWorld n0 s) in
  shape (weightsIH n0) = (hiddenSize, inputSize) /\
  shape (weightsHO n0) = (outputSize, hiddenSize) /\
  shape (weightsIH (net w)) = (hiddenSize, inputSize) /\
  shape (weightsHO (net w)) = (outputSize, hiddenSize).
Proof.
  intros _ _ _ _ n0 w.
  destruct (after_calls_shapes getRandomInt calls (mkWorld n0 s)) as [E1 E2].
  fold w in E1, E2. simpl in E1, E2.
  repeat split; try reflexivity.
  - rewrite E1. reflexivity.
  - rewrite E2. reflexivity.
Qed.

(** C3 for Network(2, 2, 1, 0.5) and three rounds on the example item. *)
Lemma weight_shapes_invariant_witness :
  let n0 := new_Network Sigmoid (fun _ => (1 / 4)%R) 2 2 1 (Some (1 / 2)%R) in
  let w := after_calls round_robin [example_call] (mkWorld n0 0) in
  shape (weightsIH n0) = (2, 2) /\
  shape (weightsHO n0) = (1, 2) /\
  shape (weightsIH (net w)) = (2, 2) /\
  shape (weightsHO (net w)) = (1, 2).
Proof.
  apply (weight_shapes_invariant round_robin Sigmoid (fun _ => (1 / 4)%R)
           2 2 1 (Some (1 / 2)%R) 0 [example_call]).
  - lia.
  - lia.
  - lia.
  - intros c item [<-|[]] [<-|[]]. split; reflexivity.
Defined.

(** C4, as amended. train on an empty training set with count > 0 throws in
    its first round the TypeError of reading the fields of the undefined
    trainSet[randIndex]: by then an activator passed with the call has been
    stored and one index drawn, and the weights are untouched. train with
    count = 0 returns normally without drawing an index and changes nothing,
    except that an activator passed with the call is stored. *)
Theorem train_empty_or_zero_count {F : Type} `{JsNumber F} {Sampler : Type}
    (getRandomInt : Z -> Z -> Sampler -> Z * Sampler)
    (count : Z) (act : option (ActivationStrategy F)) (w : World F Sampler) :
  ((0 < count)%Z ->
   exists msg,
     train getRandomInt [] count act w =
     (Throw (TypeError msg),
      mkWorld (match act with
               | Some a => set_activator a (net w)
               | None => net w
               end)
              (snd (getRandomInt 0%Z 0%Z (sampler w))))) /\
  (forall trainSet : TrainSet F,
     train getRandomInt trainSet 0 act w =
     (Normal tt,
      match act with
      | Some a => mkWorld (set_activator a (net w)) (sampler w)
      | None => w
      end)).
Proof.
  split.
  - intros Hc. unfold train.
    replace (Z.to_nat count) with (S (Z.to_nat (count - 1))) by lia.
    destruct act as [a|];
      unfold bind, on_this, modify, ret; simpl;
      unfold bind, train_body, bind, draw, throw; simpl;
      destruct (getRandomInt 0%Z 0%Z (sampler w)) as [i s'];
      rewrite TrainSet_index_nil; simpl;
      eexists; reflexivity.
  - intros trainSet. apply train_zero. lia.
Qed.

(** C4, as amended, at train([], 1) and train(set, 0) on the example
    network. *)
Lemma train_empty_or_zero_count_witness :
  (exists msg,
     train round_robin [] 1 None example_world =
     (Throw (TypeError msg), mkWorld example_net 1)) /\
  (forall trainSet : TrainSet R,
     train round_robin trainSet 0 None example_world =
     (Normal tt, example_world)).
Proof.
  destruct (train_empty_or_zero_count round_robin 1%Z None example_world)
    as [Hthrow Hzero].
  split; [apply Hthrow; lia|exact Hzero].
Defined.

(** C4 as stated fails. train([], 1, a) does not reject its arguments: what
    is thrown is the TypeError of the first round, after the activator [a]
    has been stored and an index drawn; and train([], 0, a) is not a no-op,
    it stores [a]. *)
Lemma train_empty_trainSet_counterexample :
  let w := mkWorld rational_net 0 in
  let w1 := mkWorld (set_activator blank_activator rational_net) 1 in
  let w0 := mkWorld (set_activator blank_activator rational_net) 0 in
  train round_robin [] 1 (Some blank_activator) w =
  (Throw (TypeError "Cannot destructure property 'inputs' of undefined"), w1) /\
  w1 <> w /\
  train round_robin [] 0 (Some blank_activator) w = (Normal tt, w0) /\
  w0 <> w.
Proof.
  intros w w1 w0.
  assert (Hact : blank_activator <> activator rational_net).
  { intros E.
    apply (f_equal (fun a => rows (execute a (mkNd 1 1 [[0%Q]])))) in E.
    discriminate E. }
  split; [reflexivity|]. split.
  - intros E. apply (f_equal (fun v => activator (net v))) in E.
    apply Hact. exact E.
  - split; [reflexivity|].
    intros E. apply (f_equal (fun v => activator (net v))) in E.
    apply Hact. exact E.
Qed.

(** C5. query with an input whose length is not inputSize throws (the
    ValueError of the matrix product) and leaves the network as it was; in
    particular query([a, b]) on a network constructed with inputSize = 3. *)
Theorem query_dimension_mismatch {F : Type} `{JsNumber F} :
  (forall (n : Network F) (xs : list F),
     shapes_ok n -> length xs <> inputSize n ->
     exists msg, query xs n = (Throw (ValueError msg), n)) /\
  (forall (defaultActivator : ActivationStrategy F) (random : nat -> F)
          (hiddenSize outputSize : nat) (LR : option F) (a b : F),
     exists msg,
       fst (query [a; b]
              (new_Network defaultActivator random 3 hiddenSize outputSize LR))
       = Throw (ValueError msg)).
Proof.
  split.
  - intros n xs [HIH _] Hlen. apply shape_eq in HIH. destruct HIH as [_ HIH].
    eexists. apply query_throws; assumption.
  - intros. eexists. rewrite query_throws; [reflexivity|reflexivity|].
    simpl. discriminate.
Qed.

(** C5 at the example network (inputSize = 2) and an input of length 3. *)
Lemma query_dimension_mismatch_witness :
  exists msg,
    query [1; 2; 3]%R example_net = (Throw (ValueError msg), example_net).
Proof.
  apply (proj1 query_dimension_mismatch example_net [1; 2; 3]%R).
  - split; reflexivity.
  - simpl. discriminate.
Defined.

(** C6. train(trainSet, 0) on a non-empty training set returns with
    weightsIH and weightsHO equal to what they were. *)
Theorem train_zero_keeps_weights {F : Type} `{JsNumber F} {Sampler : Type}
    (getRandomInt : Z -> Z -> Sampler -> Z * Sampler)
    (trainSet : TrainSet F) (act : option (ActivationStrategy F))
    (w : World F Sampler) :
  trainSet <> [] ->
  let r := train getRandomInt trainSet 0 act w in
  fst r = Normal tt /\
  weightsIH (net (snd r)) = weightsIH (net w) /\
  weightsHO (net (snd r)) = weightsHO (net w).
Proof.
  intros _ r. unfold r. rewrite train_zero by lia.
  destruct act; repeat split.
Qed.

(** C6 at the example network and the one-item training set. *)
Lemma train_zero_keeps_weights_witness :
  let r := train round_robin [example_item] 0 None example_world in
  fst r = Normal tt /\
  weightsIH (net (snd r)) = weightsIH example_net /\
  weightsHO (net (snd r)) = weightsHO example_net.
Proof.
  apply (train_zero_keeps_weights round_robin [example_item] None example_world).
  discriminate.
Defined.

(** C7. When train is given an activator it is stored in the network before
    the loop: the call is the loop run on the network that stores it, it is
    the stored activator in every round and when the call ends (returning or
    throwing), it stays stored through later train calls that pass none, and
    a later query computes with it. *)
Theorem train_activator_replaced {F : Type} `{JsNumber F} {Sampler : Type}
    (getRandomInt : Z -> Z -> Sampler -> Z * Sampler)
    (trainSet : TrainSet F) (count : Z) (a : ActivationStrategy F)
    (w : World F Sampler) (calls : list (TrainCall F)) :
  Forall (fun c => call_activator c = None) calls ->
  let w1 := mkWorld (set_activator a (net w)) (sampler w) in
  let w' := snd (train getRandomInt trainSet count (Some a) w) in
  let w'' := after_calls getRandomInt calls w' in
  train getRandomInt trainSet count (Some a) w =
  train_loop getRandomInt trainSet (Z.to_nat count) w1 /\
  (forall rounds,
     activator (net (snd (train_loop getRandomInt trainSet rounds w1))) = a) /\
  activator (net w') = a /\
  activator (net w'') = a /\
  (forall xs : list F,
     snd (query xs (net w'')) = net w'' /\
     forall out, fst (query xs (net w'')) = Normal out ->
       out = execute a (mat_mul (weightsHO (net w''))
               (execute a (mat_mul (weightsIH (net w''))
                  (nd_T (nj_array_reshape_1 xs)))))).
Proof.
  intros Hcalls w1 w' w''.
  assert (Hrounds : forall rounds,
    activator (net (snd (train_loop getRandomInt trainSet rounds w1))) = a).
  { intros rounds.
    now destruct (train_loop_step_frame getRandomInt trainSet rounds w1)
      as (_ & _ & E & _). }
  assert (Hw' : activator (net w') = a) by apply Hrounds.
  assert (Hw'' : activator (net w'') = a).
  { unfold w''. now rewrite after_calls_activator. }
  repeat split; try assumption.
  - apply query_frame.
  - intros out Hout. unfold query, bind, ret in Hout.
    pose proof (forwardPropagation_returns
                  (nd_T (nj_array_reshape_1 xs)) (net w'')) as Hr.
    destruct (forwardPropagation (nd_T (nj_array_reshape_1 xs)) (net w''))
      as [[r|e] n1]; simpl in Hout; [|discriminate].
    injection Hout as <-. rewrite (Hr r eq_refl).
    unfold spec_forwardPropagation. simpl. now rewrite Hw''.
Qed.

(** C7 at the example network, with the elementwise identity as the new
    activator, followed by a train call that passes none. *)
Lemma train_activator_replaced_witness :
  let a : ActivationStrategy R := {| execute := nd_map (fun v => v) |} in
  let w' := snd (train round_robin [example_item] 2 (Some a) example_world) in
  let w'' := after_calls round_robin [example_call] w' in
  activator (net w') = a /\ activator (net w'') = a.
Proof.
  intros a w' w''.
  destruct (train_activator_replaced round_robin [example_item] 2%Z a
              example_world [example_call]) as (_ & _ & E1 & E2 & _).
  - repeat constructor.
  - split; [exact E1|exact E2].
Defined.

(** C8. Two runs of train from networks with the same weights (and the same
    learning rate and activator), on the same training set with the same
    count, with samplers of any kind that return the same indices, end in the
    same way with the same weightsIH and weightsHO. *)
Theorem train_deterministic {F : Type} `{JsNumber F} {S1 S2 : Type}
    (getRandomInt1 : Z -> Z -> S1 -> Z * S1)
    (getRandomInt2 : Z -> Z -> S2 -> Z * S2)
    (trainSet : TrainSet F) (count : Z)
    (act : option (ActivationStrategy F))
    (w1 : World F S1) (w2 : World F S2) :
  weightsIH (net w1) = weightsIH (net w2) ->
  weightsHO (net w1) = weightsHO (net w2) ->
  LR (net w1) = LR (net w2) ->
  activator (net w1) = activator (net w2) ->
  draws getRandomInt1 0 (Z.of_nat (length trainSet)) (Z.to_nat count)
        (sampler w1) =
  draws getRandomInt2 0 (Z.of_nat (length trainSet)) (Z.to_nat count)
        (sampler w2) ->
  let r1 := train getRandomInt1 trainSet count act w1 in
  let r2 := train getRandomInt2 trainSet count act w2 in
  fst r1 = fst r2 /\
  weightsIH (net (snd r1)) = weightsIH (net (snd r2)) /\
  weightsHO (net (snd r1)) = weightsHO (net (snd r2)).
Proof.
  intros HIH HHO HLR Hact Hdraws r1 r2.
  assert (Hloop :
    fst r1 = fst r2 /\ same_parameters (net (snd r1)) (net (snd r2))).
  { unfold r1, r2. destruct act as [a|].
    - rewrite !train_Some. unfold train, bind, ret.
      apply train_loop_same_draws; [|exact Hdraws].
      repeat split; assumption.
    - unfold train, bind, ret.
      apply train_loop_same_draws; [|exact Hdraws].
      repeat split; assumption. }
  destruct Hloop as [Hr (E1 & E2 & _)].
  repeat split; assumption.
Qed.

(** C8 for a sampler that walks through a one-item set and one that replays
    the indices 0, 0. *)
Lemma train_deterministic_witness :
  let r1 := train round_robin [example_item] 2 None example_world in
  let r2 := train replay [example_item] 2 None
                  (mkWorld example_net [0; 0]%Z) in
  fst r1 = fst r2 /\
  weightsIH (net (snd r1)) = weightsIH (net (snd r2)) /\
  weightsHO (net (snd r1)) = weightsHO (net (snd r2)).
Proof.
  apply (train_deterministic round_robin replay [example_item] 2%Z None
           example_world (mkWorld example_net [0; 0]%Z)).
  - reflexivity.
  - reflexivity.
  - reflexivity.
  - reflexivity.
  - reflexivity.
Defined.

(** C9, as amended. For an input of length inputSize, on weights of the
    configured shapes and with an activator that keeps shapes, query returns
    a column of exactly outputSize cells; when the activator applies a
    function to every cell, as the logistic sigmoid does, every returned
    value is a value of that function and so lies in whatever range the
    function has. *)
Theorem query_output_in_activation_range {F : Type} `{JsNumber F}
    (n : Network F) (xs : list F) :
  shapes_ok n -> keeps_shape (activator n) -> length xs = inputSize n ->
  exists out : NdArray F,
    query xs n = (Normal out, n) /\
    shape out = (outputSize n, 1) /\
    (forall (sigma : F -> F) (range : F -> Prop),
       activator n = elementwise sigma ->
       (forall v, range (sigma v)) ->
       length (cells out) = outputSize n /\
       Forall (fun row => length row = 1 /\ Forall range row) (cells out)).
Proof.
  intros Hn Hact Hlen.
  exists (finalOutputs
            (spec_forwardPropagation n (nd_T (nj_array_reshape_1 xs)))).
  split; [apply query_total; assumption|].
  split; [apply query_shape; assumption|].
  intros sigma range Hs Hrange.
  pose proof (query_shape n xs Hn Hact) as Hshape.
  apply shape_eq in Hshape. destruct Hshape as [Hrows Hcols].
  revert Hrows Hcols. unfold spec_forwardPropagation. simpl. rewrite Hs.
  set (finalInputs := mat_mul _ _). simpl. intros Hrows Hcols.
  destruct (filled_nd_map sigma finalInputs (filled_tabulate _ _ _))
    as [Hr Hc].
  simpl in Hr, Hc.
  split; [congruence|].
  rewrite Forall_forall in *. intros row Hrow.
  split; [rewrite (Hc row Hrow); exact Hcols|].
  apply in_map_iff in Hrow. destruct Hrow as (row0 & <- & _).
  apply Forall_map, Forall_forall. intros v _. apply Hrange.
Qed.

(** C9, as amended, for the logistic sigmoid on numbers with NaN: every
    value query returns is NaN or lies strictly between 0 and 1. *)
Lemma query_output_in_activation_range_witness :
  exists out : NdArray Num,
    query [Fin 1; Fin 0] Num_net = (Normal out, Num_net) /\
    shape out = (1, 1) /\
    length (cells out) = 1 /\
    Forall (fun row => length row = 1 /\
                       Forall (fun v => v = NaN \/ in_unit_interval v) row)
           (cells out).
Proof.
  destruct (query_output_in_activation_range Num_net [Fin 1; Fin 0])
    as (out & Hq & Hs & Hr).
  - split; reflexivity.
  - intros m. reflexivity.
  - reflexivity.
  - exists out. split; [exact Hq|]. split; [exact Hs|].
    apply (Hr Num_logistic (fun v => v = NaN \/ in_unit_interval v)).
    + reflexivity.
    + intros [r|]; simpl; [right; apply logistic_range|left; reflexivity].
Defined.

(** C9 as stated fails: with the logistic sigmoid, query on the input
    [1, NaN], which has length inputSize, returns NaN, and NaN is not
    strictly between 0 and 1. *)
Lemma query_output_range_counterexample :
  query [Fin 1; NaN] Num_net = (Normal (mkNd 1 1 [[NaN]]), Num_net) /\
  ~ in_unit_interval NaN.
Proof.
  split; [reflexivity|]. simpl. tauto.
Qed.

(** C10. train(trainSet, 0, activator) returns at once with the activator
    stored and the weights as they were, also for an empty training set. *)
Theorem train_zero_stores_activator {F : Type} `{JsNumber F} {Sampler : Type}
    (getRandomInt : Z -> Z -> Sampler -> Z * Sampler)
    (trainSet : TrainSet F) (a : ActivationStrategy F) (w : World F Sampler) :
  let r := train getRandomInt trainSet 0 (Some a) w in
  let r0 := train getRandomInt [] 0 (Some a) w in
  r = (Normal tt, mkWorld (set_activator a (net w)) (sampler w)) /\
  r0 = (Normal tt, mkWorld (set_activator a (net w)) (sampler w)) /\
  activator (net (snd r)) = a /\
  weightsIH (net (snd r)) = weightsIH (net w) /\
  weightsHO (net (snd r)) = weightsHO (net w) /\
  activator (net (snd r0)) = a /\
  weightsIH (net (snd r0)) = weightsIH (net w) /\
  weightsHO (net (snd r0)) = weightsHO (net w).
Proof.
  repeat split.
Qed.

(** * Further properties of the methods *)

Section ArrayCells.

Context {F : Type} `{JsNumber F}.

Lemma nth_map_seq {A : Type} (g : nat -> A) (n i : nat) (d : A) :
  i < n -> nth i (map g (seq 0 n)) d = g i.
Proof.
  intros Hi.
  rewrite (nth_indep _ d (g 0)) by now rewrite length_map, length_seq.
  rewrite map_nth, seq_nth by assumption. reflexivity.
Qed.

Lemma nd_get_tabulate (r c : nat) (f : nat -> nat -> F) (i j : nat) :
  i < r -> j < c -> nd_get (tabulate r c f) i j = f i j.
Proof.
  intros Hi Hj. unfold nd_get, tabulate. simpl.
  rewrite (nth_map_seq (fun i => map (fun j => f i j) (seq 0 c))) by assumption.
  now rewrite (nth_map_seq (fun j => f i j)).
Qed.

End ArrayCells.

Section Steps.

Context {F : Type} `{JsNumber F}.

(** What a forward pass that returns tells about the shapes. *)
Lemma forwardPropagation_inv (x : NdArray F) (n : Network F)
    (r : IForwardResult F) :
  fst (forwardPropagation x n) = Normal r ->
  cols (weightsIH n) = rows x /\
  cols (weightsHO n) = rows (hiddenOutputs r) /\
  r = spec_forwardPropagation n x.
Proof.
  unfold forwardPropagation, spec_forwardPropagation, bind, get, liftC, ret.
  destruct (nd_dot (weightsIH n) x) as [hi|e] eqn:E1; [|discriminate].
  apply nd_dot_inv in E1. destruct E1 as [E1 ->].
  destruct (nd_dot (weightsHO n) _) as [fi|e] eqn:E2; [|discriminate].
  apply nd_dot_inv in E2. destruct E2 as [E2 ->].
  simpl. intros E. injection E as <-. simpl. repeat split; assumption.
Qed.

(** On weights that fit each other and hidden outputs that fit weightsHO,
    a backward pass that throws has written nothing, and one that returns
    leaves the network of the specification. *)
Lemma backPropagation_cases (n : Network F) (x t : NdArray F)
    (r : IForwardResult F) :
  rows (weightsIH n) = cols (weightsHO n) ->
  cols (weightsIH n) = rows x ->
  cols (weightsHO n) = rows (hiddenOutputs r) ->
  (exists e, backPropagation x t r n = (Throw e, n)) \/
  backPropagation x t r n = (Normal tt, spec_backPropagation n x t r).
Proof.
  intros H1 H2 H3.
  unfold backPropagation, calcAdditionalWeights, bind, get, liftC, ret, modify,
    nd_add, nd_subtract, nd_multiply.
  destruct_ops; simpl; try (left; eexists; reflexivity);
    repeat match goal with
    | E : nd_elementwise _ _ _ = Normal _ |- _ =>
        apply nd_elementwise_inv in E; destruct E as [? ->]
    | E : nd_dot _ _ = Normal _ |- _ =>
        apply nd_dot_inv in E; destruct E as [? ->]
    end.
  - right. reflexivity.
  - exfalso.
    match goal with
    | E : nd_elementwise _ (weightsIH n) ?d = Throw _ |- _ =>
        rewrite nd_elementwise_normal in E; [discriminate|]
    end.
    repeat match goal with
    | E : shape _ = shape _ |- _ =>
        unfold shape in E; simpl in E; injection E as ? ?
    end.
    unfold shape. simpl. now rewrite H1, H2.
Qed.

Lemma trainStep_cases (n : Network F) (xs ts : list F) :
  shapes_ok n ->
  let x := nd_T (nj_array_reshape_1 xs) in
  let t := nd_T (nj_array_reshape_1 ts) in
  (exists e, trainStep xs ts n = (Throw e, n)) \/
  trainStep xs ts n =
  (Normal tt, spec_backPropagation n x t (spec_forwardPropagation n x)).
Proof.
  intros [HIH HHO] x t. unfold trainStep, bind. fold x t.
  apply shape_eq in HIH, HHO. destruct HIH as [rIH _], HHO as [_ cHO].
  pose proof (forwardPropagation_frame x n) as Hf.
  pose proof (forwardPropagation_inv x n) as Hr.
  destruct (forwardPropagation x n) as [[r|e] n1]; simpl in Hf, Hr; subst n1.
  - destruct (Hr r eq_refl) as (E1 & E2 & Er).
    rewrite <- Er.
    apply backPropagation_cases; [congruence|exact E1|exact E2].
  - left. now exists e.
Qed.

Lemma trainStep_spec (n : Network F) (xs ts : list F) :
  shapes_ok n -> keeps_shape (activator n) ->
  length xs = inputSize n -> length ts = outputSize n ->
  let x := nd_T (nj_array_reshape_1 xs) in
  let t := nd_T (nj_array_reshape_1 ts) in
  trainStep xs ts n =
  (Normal tt, spec_backPropagation n x t (spec_forwardPropagation n x)).
Proof.
  intros Hn Hact Hxs Hts x t. unfold trainStep, bind. fold x t.
  rewrite (forwardPropagation_total x n Hn Hact)
    by (unfold x; now rewrite shape_column, Hxs).
  destruct Hn as [HIH HHO].
  pose proof (shape_eq _ _ _ HIH) as [rIH cIH].
  pose proof (shape_eq _ _ _ HHO) as [rHO cHO].
  set (r := spec_forwardPropagation n x).
  assert (Hho : shape (hiddenOutputs r) = (hiddenSize n, 1)).
  { unfold r, spec_forwardPropagation. simpl. rewrite Hact, shape_mat_mul.
    now rewrite rIH. }
  assert (Hfo : shape (finalOutputs r) = (outputSize n, 1)).
  { unfold r, spec_forwardPropagation. simpl. rewrite Hact, shape_mat_mul.
    rewrite rHO. f_equal.
    now destruct (shape_eq _ _ _ Hho) as [_ E]. }
  assert (Ht : shape t = (outputSize n, 1))
    by (unfold t; now rewrite shape_column, Hts).
  assert (Hx : shape x = (inputSize n, 1))
    by (unfold x; now rewrite shape_column, Hxs).
  pose proof (shape_eq _ _ _ Ht) as [rt ct].
  pose proof (shape_eq _ _ _ Hx) as [rx cx].
  apply backPropagation_total; congruence.
Qed.

Lemma trainStep_wrong_inputs (n : Network F) (xs ts : list F) :
  shapes_ok n -> length xs <> inputSize n ->
  trainStep xs ts n =
  (Throw (ValueError "cannot compute the matrix product of given arrays"), n).
Proof.
  intros [HIH _] Hlen. apply shape_eq in HIH. destruct HIH as [_ HIH].
  unfold trainStep, forwardPropagation, bind, get, liftC, ret.
  rewrite nd_dot_throw; [reflexivity|]. simpl. congruence.
Qed.

Lemma trainStep_wrong_targets (n : Network F) (xs ts : list F) :
  shapes_ok n -> keeps_shape (activator n) ->
  length xs = inputSize n -> length ts <> outputSize n ->
  trainStep xs ts n =
  (Throw (Error "cwise: Arrays do not all have the same shape!"), n).
Proof.
  intros Hn Hact Hxs Hts. unfold trainStep, bind.
  rewrite (forwardPropagation_total _ n Hn Hact)
    by (now rewrite shape_column, Hxs).
  unfold backPropagation, bind, get, liftC, nd_subtract.
  rewrite nd_elementwise_throw; [reflexivity|].
  destruct Hn as [_ HHO]. apply shape_eq in HHO. destruct HHO as [HHO _].
  unfold spec_forwardPropagation. simpl. rewrite Hact.
  unfold shape. simpl. congruence.
Qed.

Lemma step_frame_shapes_ok (n n' : Network F) :
  step_frame n n' -> shapes_ok n -> shapes_ok n'.
Proof.
  unfold step_frame, shapes_ok.
  intros (a1 & a2 & _ & _ & a5 & a6 & a7) [b1 b2].
  split; congruence.
Qed.

End Steps.

Section Rounds.

Context {F : Type} `{JsNumber F} {Sampler : Type}.
Variable getRandomInt : Z -> Z -> Sampler -> Z * Sampler.

Lemma TrainSet_index_in_range (trainSet : TrainSet F) (i : Z) :
  (0 <= i < Z.of_nat (length trainSet))%Z ->
  exists item, TrainSet_index trainSet i = Some item /\ In item trainSet.
Proof.
  intros Hi. unfold TrainSet_index.
  replace (i <? 0)%Z with false by (symmetry; apply Z.ltb_ge; lia).
  destruct (nth_error trainSet (Z.to_nat i)) as [item|] eqn:E.
  - exists item. split; [reflexivity|]. eapply nth_error_In; eassumption.
  - apply nth_error_None in E. lia.
Qed.

Lemma TrainSet_index_out_of_range (trainSet : TrainSet F) (i : Z) :
  (i < 0 \/ Z.of_nat (length trainSet) <= i)%Z ->
  TrainSet_index trainSet i = None.
Proof.
  intros Hi. unfold TrainSet_index.
  destruct (i <? 0)%Z eqn:E; [reflexivity|].
  apply Z.ltb_ge in E. apply nth_error_None. lia.
Qed.

Lemma item_ok_step_frame (n n' : Network F) (item : ITrainItem F) :
  step_frame n n' -> item_ok n item -> item_ok n' item.
Proof.
  unfold step_frame, item_ok.
  intros (_ & _ & _ & _ & a5 & _ & a7) [b1 b2]. split; congruence.
Qed.

(** A round on a well-formed set with an index in range returns. *)
Lemma train_body_total (trainSet : TrainSet F) (w : World F Sampler) :
  shapes_ok (net w) -> keeps_shape (activator (net w)) ->
  (forall item, In item trainSet -> item_ok (net w) item) ->
  draws_in_range getRandomInt (length trainSet) ->
  fst (train_body getRandomInt trainSet w) = Normal tt.
Proof.
  intros Hn Hact Hitems Hdraws.
  unfold train_body, bind, draw, on_this.
  pose proof (Hdraws (sampler w)) as Hi.
  destruct (getRandomInt 0%Z (Z.of_nat (length trainSet)) (sampler w))
    as [i s]. simpl in Hi.
  destruct (TrainSet_index_in_range trainSet i Hi) as (item & -> & Hin).
  simpl. destruct (Hitems item Hin) as [Hxs Hts].
  now rewrite (trainStep_spec (net w) _ _ Hn Hact Hxs Hts).
Qed.

Lemma train_loop_total (trainSet : TrainSet F) (rounds : nat) :
  forall w : World F Sampler,
  shapes_ok (net w) -> keeps_shape (activator (net w)) ->
  (forall item, In item trainSet -> item_ok (net w) item) ->
  draws_in_range getRandomInt (length trainSet) ->
  fst (train_loop getRandomInt trainSet rounds w) = Normal tt.
Proof.
  induction rounds as [|k IH]; intros w Hn Hact Hitems Hdraws; simpl.
  - reflexivity.
  - unfold bind.
    pose proof (train_body_total trainSet w Hn Hact Hitems Hdraws) as Hb.
    pose proof (train_body_step_frame getRandomInt trainSet w) as Hf.
    destruct (train_body getRandomInt trainSet w) as [[[]|e] w1];
      simpl in Hb, Hf; [|discriminate].
    apply IH.
    + eapply step_frame_shapes_ok; eassumption.
    + destruct Hf as (_ & _ & -> & _). exact Hact.
    + intros item Hin. eapply item_ok_step_frame; [exact Hf|]. now apply Hitems.
    + exact Hdraws.
Qed.

Lemma bind_assoc {St A B C : Type} (c : M St A) (k1 : A -> M St B)
    (k2 : B -> M St C) (s : St) :
  bind (bind c k1) k2 s = bind c (fun a => bind (k1 a) k2) s.
Proof.
  unfold bind. destruct (c s) as [[a|e] s1]; reflexivity.
Qed.

Lemma bind_ext {St A B : Type} (c : M St A) (k k' : A -> M St B) (s : St) :
  (forall a s', k a s' = k' a s') -> bind c k s = bind c k' s.
Proof.
  intros E. unfold bind. destruct (c s) as [[a|e] s1]; [apply E|reflexivity].
Qed.

(** Rounds add up: k1 + k2 rounds are k1 rounds and then, unless one of
    them threw, k2 more. *)
Lemma train_loop_app (trainSet : TrainSet F) (k1 k2 : nat) :
  forall w : World F Sampler,
  train_loop getRandomInt trainSet (k1 + k2) w =
  bind (train_loop getRandomInt trainSet k1)
       (fun _ => train_loop getRandomInt trainSet k2) w.
Proof.
  induction k1 as [|k IH]; intros w; simpl.
  - reflexivity.
  - rewrite bind_assoc. apply bind_ext. intros _ w1. apply IH.
Qed.

(** Each round that is run draws one index. *)
Lemma train_body_sampler (trainSet : TrainSet F) (w : World F Sampler) :
  sampler (snd (train_body getRandomInt trainSet w)) =
  snd (getRandomInt 0%Z (Z.of_nat (length trainSet)) (sampler w)).
Proof.
  unfold train_body, bind, draw, throw, on_this.
  destruct (getRandomInt 0%Z (Z.of_nat (length trainSet)) (sampler w))
    as [i s].
  destruct (TrainSet_index trainSet i) as [item|]; simpl; [|reflexivity].
  now destruct (trainStep (inputs item) (targets item) (net w)) as [[[]|e] n'].
Qed.

Lemma train_loop_sampler (trainSet : TrainSet F) (rounds : nat) :
  forall w : World F Sampler,
  fst (train_loop getRandomInt trainSet rounds w) = Normal tt ->
  sampler (snd (train_loop getRandomInt trainSet rounds w)) =
  sampler_after getRandomInt 0%Z (Z.of_nat (length trainSet)) rounds
                (sampler w).
Proof.
  induction rounds as [|k IH]; intros w; simpl.
  - reflexivity.
  - unfold bind.
    pose proof (train_body_sampler trainSet w) as Hs.
    destruct (train_body getRandomInt trainSet w) as [[[]|e] w1];
      simpl in Hs; [|discriminate].
    intros Hr. rewrite <- Hs. now apply IH.
Qed.

(** The activator stored after a train call. *)
Lemma after_call_activator (w : World F Sampler) (c : TrainCall F) :
  activator (net (after_call getRandomInt w c)) =
  match call_activator c with
  | Some a => a
  | None => activator (net w)
  end.
Proof.
  unfold after_call. destruct (call_activator c) as [a|].
  - rewrite train_Some.
    now destruct (train_None_step_frame getRandomInt (call_trainSet c)
                    (call_count c)
                    (mkWorld (set_activator a (net w)) (sampler w)))
      as (_ & _ & E & _).
  - now destruct (train_None_step_frame getRandomInt (call_trainSet c)
                    (call_count c) w) as (_ & _ & E & _).
Qed.

(** What no train call changes: the learning rate and the three sizes. *)
Lemma after_call_config (w : World F Sampler) (c : TrainCall F) :
  let n' := net (after_call getRandomInt w c) in
  LR n' = LR (net w) /\ inputSize n' = inputSize (net w) /\
  hiddenSize n' = hiddenSize (net w) /\ outputSize n' = outputSize (net w).
Proof.
  unfold after_call. destruct (call_activator c) as [a|].
  - rewrite train_Some.
    destruct (train_None_step_frame getRandomInt (call_trainSet c)
                (call_count c)
                (mkWorld (set_activator a (net w)) (sampler w)))
      as (_ & _ & _ & E4 & E5 & E6 & E7).
    repeat split; assumption.
  - destruct (train_None_step_frame getRandomInt (call_trainSet c)
                (call_count c) w) as (_ & _ & _ & E4 & E5 & E6 & E7).
    repeat split; assumption.
Qed.

Lemma after_calls_ready (calls : list (TrainCall F)) :
  Forall call_keeps_shape calls ->
  forall w : World F Sampler,
  shapes_ok (net w) -> keeps_shape (activator (net w)) ->
  let n' := net (after_calls getRandomInt calls w) in
  shapes_ok n' /\ keeps_shape (activator n') /\
  inputSize n' = inputSize (net w) /\ outputSize n' = outputSize (net w).
Proof.
  induction 1 as [|c calls Hc _ IH]; intros w Hn Hact; simpl.
  - split; [exact Hn|]. split; [exact Hact|]. split; reflexivity.
  - fold (after_calls getRandomInt calls (after_call getRandomInt w c)).
    destruct (after_call_config w c) as (E4 & E5 & E6 & E7).
    pose proof (after_call_activator w c) as Ea.
    destruct (train_shapes getRandomInt (call_trainSet c) (call_count c)
                (call_activator c) w) as [S1 S2].
    fold (after_call getRandomInt w c) in S1, S2.
    destruct (IH (after_call getRandomInt w c)) as (I1 & I2 & I3 & I4).
    + destruct Hn as [N1 N2]. split; congruence.
    + rewrite Ea. unfold call_keeps_shape in Hc.
      destruct (call_activator c); assumption.
    + split; [exact I1|]. split; [exact I2|]. split; congruence.
Qed.

End Rounds.

Section Construction.

Context {F : Type} `{JsNumber F}.

Lemma generateWeights_cell (r c : nat) (random : nat -> F) (pos i j : nat) :
  i < r -> j < c ->
  nd_get (fst (generateWeights r c random pos)) i j =
  num_sub (random (pos + i * c + j)) num_half.
Proof.
  intros Hi Hj. unfold generateWeights, nj_random, nd_subtract_num. simpl.
  now rewrite !nd_get_tabulate.
Qed.

Lemma generateWeights_filled (r c : nat) (random : nat -> F) (pos : nat) :
  filled (fst (generateWeights r c random pos)).
Proof. apply filled_tabulate. Qed.

Lemma new_Network_shapes_ok (defaultActivator : ActivationStrategy F)
    (random : nat -> F) (i h o : nat) (lr : option F) :
  shapes_ok (new_Network defaultActivator random i h o lr).
Proof. split; reflexivity. Qed.

End Construction.

(** X1. On a network whose weights have the configured shapes, a training
    step is all or nothing: either it throws and the network is exactly as
    before, or it returns and the network is the one obtained from the
    forward pass followed by the two weight updates. *)
Theorem trainStep_all_or_nothing {F : Type} `{JsNumber F}
    (n : Network F) (xs ts : list F) :
  shapes_ok n ->
  let x := nd_T (nj_array_reshape_1 xs) in
  let t := nd_T (nj_array_reshape_1 ts) in
  (exists e, trainStep xs ts n = (Throw e, n)) \/
  (exists n',
     trainStep xs ts n = (Normal tt, n') /\
     n' = spec_backPropagation n x t (spec_forwardPropagation n x) /\
     step_frame n n').
Proof.
  intros Hn x t. destruct (trainStep_cases n xs ts Hn) as [Hthrow|Hret].
  - left. exact Hthrow.
  - right. eexists. split; [exact Hret|]. split; [reflexivity|].
    repeat split.
Qed.

Lemma trainStep_all_or_nothing_witness :
  let x := nd_T (nj_array_reshape_1 [1; 0]%Q) in
  let t := nd_T (nj_array_reshape_1 [1; 2]%Q) in
  (exists e, trainStep [1; 0]%Q [1; 2]%Q rational_net = (Throw e, rational_net)) \/
  (exists n',
     trainStep [1; 0]%Q [1; 2]%Q rational_net = (Normal tt, n') /\
     n' = spec_backPropagation rational_net x t
            (spec_forwardPropagation rational_net x) /\
     step_frame rational_net n').
Proof.
  apply (trainStep_all_or_nothing rational_net [1; 0]%Q [1; 2]%Q).
  split; reflexivity.
Defined.

(** X2. On a network whose weights have the configured shapes and whose
    activator keeps shapes, a training step with inputSize inputs and
    outputSize targets returns, and the shapes still hold afterwards. *)
Theorem trainStep_well_formed_returns {F : Type} `{JsNumber F}
    (n : Network F) (xs ts : list F) :
  shapes_ok n -> keeps_shape (activator n) ->
  length xs = inputSize n -> length ts = outputSize n ->
  exists n',
    trainStep xs ts n = (Normal tt, n') /\
    shapes_ok n' /\ activator n' = activator n /\ LR n' = LR n.
Proof.
  intros Hn Hact Hxs Hts.
  pose proof (trainStep_step_frame n xs ts) as Hf.
  rewrite (trainStep_spec n xs ts Hn Hact Hxs Hts) in Hf |- *.
  eexists. split; [reflexivity|]. simpl in Hf.
  split; [eapply step_frame_shapes_ok; eassumption|].
  split; reflexivity.
Qed.

Lemma trainStep_well_formed_returns_witness :
  exists n',
    trainStep (inputs example_item) (targets example_item) example_net =
    (Normal tt, n') /\
    shapes_ok n' /\ activator n' = Sigmoid /\ LR n' = (1 / 2)%R.
Proof.
  apply (trainStep_well_formed_returns example_net
           (inputs example_item) (targets example_item)).
  - split; reflexivity.
  - intros m. reflexivity.
  - reflexivity.
  - reflexivity.
Defined.

(** X3. train never throws when every index the sampler returns is within
    the training set, every item has inputSize inputs and outputSize targets,
    the weights have the configured shapes and the activator in force keeps
    shapes. *)
Theorem train_returns_on_well_formed_set {F : Type} `{JsNumber F}
    {Sampler : Type} (getRandomInt : Z -> Z -> Sampler -> Z * Sampler)
    (trainSet : TrainSet F) (count : Z)
    (act : option (ActivationStrategy F)) (w : World F Sampler) :
  shapes_ok (net w) ->
  keeps_shape (match act with Some a => a | None => activator (net w) end) ->
  (forall item, In item trainSet -> item_ok (net w) item) ->
  draws_in_range getRandomInt (length trainSet) ->
  fst (train getRandomInt trainSet count act w) = Normal tt.
Proof.
  intros Hn Hact Hitems Hdraws. destruct act as [a|].
  - rewrite train_Some. unfold train, bind, ret.
    apply train_loop_total; assumption.
  - unfold train, bind, ret. apply train_loop_total; assumption.
Qed.

Lemma train_returns_on_well_formed_set_witness :
  fst (train round_robin [example_item] 5 None example_world) = Normal tt.
Proof.
  apply (train_returns_on_well_formed_set round_robin [example_item] 5%Z
           None example_world).
  - split; reflexivity.
  - intros m. reflexivity.
  - intros item [<-|[]]. split; reflexivity.
  - intros s. unfold round_robin. simpl. rewrite Z.mod_1_r. lia.
Defined.

(** X4. When count > 0 and the first index drawn lies outside the training
    set, train throws a TypeError in its first round; the weights are
    untouched, one index has been drawn, and an activator passed with the
    call has nevertheless been stored. *)
Theorem train_index_out_of_range_throws {F : Type} `{JsNumber F}
    {Sampler : Type} (getRandomInt : Z -> Z -> Sampler -> Z * Sampler)
    (trainSet : TrainSet F) (count : Z)
    (act : option (ActivationStrategy F)) (w : World F Sampler) :
  (0 < count)%Z ->
  let len := Z.of_nat (length trainSet) in
  let i := fst (getRandomInt 0%Z len (sampler w)) in
  (i < 0 \/ len <= i)%Z ->
  exists msg,
    train getRandomInt trainSet count act w =
    (Throw (TypeError msg),
     mkWorld (match act with
              | Some a => set_activator a (net w)
              | None => net w
              end)
             (snd (getRandomInt 0%Z len (sampler w)))).
Proof.
  intros Hc len i Hi. unfold train.
  replace (Z.to_nat count) with (S (Z.to_nat (count - 1))) by lia.
  subst i len.
  destruct act as [a|];
    unfold bind, on_this, modify, ret; simpl;
    unfold bind, train_body, bind, draw, throw; simpl;
    destruct (getRandomInt 0%Z (Z.of_nat (length trainSet)) (sampler w))
      as [i s'];
    simpl in Hi; rewrite (TrainSet_index_out_of_range trainSet i Hi);
    eexists; reflexivity.
Qed.

Lemma train_index_out_of_range_throws_witness :
  exists msg,
    train replay [example_item] 3 None (mkWorld example_net [5]%Z) =
    (Throw (TypeError msg), mkWorld example_net []).
Proof.
  apply (train_index_out_of_range_throws replay [example_item] 3%Z None
           (mkWorld example_net [5]%Z)).
  - lia.
  - simpl. lia.
Defined.

(** X5. A training step with badly sized data throws before anything is
    written: inputs that do not have inputSize numbers make the matrix
    product throw a ValueError; inputs that do, with targets that do not
    have outputSize numbers, make the subtraction of the final outputs throw
    the Error of cwise. The network is exactly as it was. *)
Theorem trainStep_wrong_length_throws {F : Type} `{JsNumber F}
    (n : Network F) (xs ts : list F) :
  shapes_ok n -> keeps_shape (activator n) ->
  (length xs <> inputSize n ->
   exists msg, trainStep xs ts n = (Throw (ValueError msg), n)) /\
  (length xs = inputSize n -> length ts <> outputSize n ->
   exists msg, trainStep xs ts n = (Throw (Error msg), n)).
Proof.
  intros Hn Hact. split.
  - intros Hxs. eexists. apply trainStep_wrong_inputs; assumption.
  - intros Hxs Hts. eexists. apply trainStep_wrong_targets; assumption.
Qed.

Lemma trainStep_wrong_length_throws_witness :
  (exists msg,
     trainStep [1]%R [1]%R example_net =
     (Throw (ValueError msg), example_net)) /\
  (exists msg,
     trainStep [1; 0]%R [1; 2]%R example_net =
     (Throw (Error msg), example_net)).
Proof.
  split.
  - apply (proj1 (trainStep_wrong_length_throws example_net [1]%R [1]%R
                    (conj eq_refl eq_refl) (fun m => eq_refl))).
    simpl. discriminate.
  - apply (proj2 (trainStep_wrong_length_throws example_net
                    [1; 0]%R [1; 2]%R
                    (conj eq_refl eq_refl) (fun m => eq_refl))).
    + reflexivity.
    + simpl. discriminate.
Defined.

(** X6. The constructor fills weightsIH with the first
    hiddenSize * inputSize values of Math.random, row by row, and weightsHO
    with the next outputSize * hiddenSize values, each minus 0.5; both arrays
    hold a cell for every position of their shape. *)
Theorem new_Network_initial_weights {F : Type} `{JsNumber F}
    (defaultActivator : ActivationStrategy F) (random : nat -> F)
    (inputSize hiddenSize outputSize : nat) (LR : option F) :
  let n0 := new_Network defaultActivator random
                        inputSize hiddenSize outputSize LR in
  filled_weights n0 /\
  (forall i j, i < hiddenSize -> j < inputSize ->
     nd_get (weightsIH n0) i j =
     num_sub (random (i * inputSize + j)) num_half) /\
  (forall i j, i < outputSize -> j < hiddenSize ->
     nd_get (weightsHO n0) i j =
     num_sub (random (hiddenSize * inputSize + i * hiddenSize + j)) num_half).
Proof.
  intros n0. split; [|split].
  - split; apply generateWeights_filled.
  - intros i j Hi Hj.
    apply (generateWeights_cell hiddenSize inputSize random 0 i j Hi Hj).
  - intros i j Hi Hj.
    apply (generateWeights_cell outputSize hiddenSize random
             (0 + hiddenSize * inputSize) i j Hi Hj).
Qed.

Lemma new_Network_initial_weights_witness :
  let random := fun k => (INR k / 10)%R in
  let n0 := new_Network Sigmoid random 2 2 1 None in
  nd_get (weightsIH n0) 1 0 = (random 2%nat - 1 / 2)%R /\
  nd_get (weightsHO n0) 0 1 = (random 5%nat - 1 / 2)%R.
Proof.
  intros random n0.
  destruct (new_Network_initial_weights Sigmoid random 2 2 1 None)
    as (_ & HIH & HHO).
  split.
  - apply (HIH 1 0); lia.
  - apply (HHO 0 1); lia.
Defined.

(** X7. With Math.random returning values in [0, 1), every initial weight
    lies in [-0.5, 0.5) (numbers taken as reals). *)
Theorem new_Network_weights_range
    (defaultActivator : ActivationStrategy R) (random : nat -> R)
    (inputSize hiddenSize outputSize : nat) (LR : option R) :
  (forall k, (0 <= random k < 1)%R) ->
  let n0 := new_Network defaultActivator random
                        inputSize hiddenSize outputSize LR in
  Forall (Forall (fun v => (- (1 / 2) <= v < 1 / 2)%R)) (cells (weightsIH n0)) /\
  Forall (Forall (fun v => (- (1 / 2) <= v < 1 / 2)%R)) (cells (weightsHO n0)).
Proof.
  intros Hrandom n0.
  assert (Hgen : forall r c pos,
    Forall (Forall (fun v => (- (1 / 2) <= v < 1 / 2)%R))
           (cells (fst (generateWeights r c random pos)))).
  { intros r c pos. unfold generateWeights, nj_random, nd_subtract_num. simpl.
    apply Forall_map, Forall_forall. intros i Hi. apply in_seq in Hi.
    apply Forall_map, Forall_forall. intros j Hj. apply in_seq in Hj.
    rewrite nd_get_tabulate by lia.
    pose proof (Hrandom (pos + i * c + j)) as Hk. simpl. lra. }
  split; apply Hgen.
Qed.

Lemma new_Network_weights_range_witness :
  let n0 := new_Network Sigmoid (fun _ => (1 / 4)%R) 2 2 1 None in
  Forall (Forall (fun v => (- (1 / 2) <= v < 1 / 2)%R)) (cells (weightsIH n0)) /\
  Forall (Forall (fun v => (- (1 / 2) <= v < 1 / 2)%R)) (cells (weightsHO n0)).
Proof.
  apply (new_Network_weights_range Sigmoid (fun _ => (1 / 4)%R) 2 2 1 None).
  intros k. lra.
Defined.

(** X8. A train call that returns has drawn exactly count indices from the
    sampler (none when count is not positive). *)
Theorem train_draws_count {F : Type} `{JsNumber F} {Sampler : Type}
    (getRandomInt : Z -> Z -> Sampler -> Z * Sampler)
    (trainSet : TrainSet F) (count : Z)
    (act : option (ActivationStrategy F)) (w : World F Sampler) :
  fst (train getRandomInt trainSet count act w) = Normal tt ->
  sampler (snd (train getRandomInt trainSet count act w)) =
  sampler_after getRandomInt 0%Z (Z.of_nat (length trainSet))
                (Z.to_nat count) (sampler w).
Proof.
  destruct act as [a|].
  - rewrite train_Some. unfold train, bind, ret. intros Hr.
    now rewrite train_loop_sampler.
  - unfold train, bind, ret. intros Hr. now rewrite train_loop_sampler.
Qed.

Lemma train_draws_count_witness :
  sampler (snd (train round_robin [rational_item] 2 None
                      (mkWorld rational_net 0))) = 2.
Proof.
  apply (train_draws_count round_robin [rational_item] 2%Z None
           (mkWorld rational_net 0)).
  vm_compute. reflexivity.
Defined.

(** X9. Training a + b rounds is training a rounds and then, unless that
    threw, b rounds more: the first call may carry the activator. *)
Theorem train_counts_add {F : Type} `{JsNumber F} {Sampler : Type}
    (getRandomInt : Z -> Z -> Sampler -> Z * Sampler)
    (trainSet : TrainSet F) (a b : Z)
    (act : option (ActivationStrategy F)) (w : World F Sampler) :
  (0 <= a)%Z -> (0 <= b)%Z ->
  train getRandomInt trainSet (a + b) act w =
  bind (train getRandomInt trainSet a act)
       (fun _ => train getRandomInt trainSet b None) w.
Proof.
  intros Ha Hb.
  assert (Hnone : forall w0 : World F Sampler,
    train getRandomInt trainSet (a + b) None w0 =
    bind (train getRandomInt trainSet a None)
         (fun _ => train getRandomInt trainSet b None) w0).
  { intros w0. unfold train.
    replace (Z.to_nat (a + b)) with (Z.to_nat a + Z.to_nat b) by lia.
    change (bind (ret tt) (fun _ : unit =>
              train_loop getRandomInt trainSet (Z.to_nat a + Z.to_nat b)) w0)
      with (train_loop getRandomInt trainSet (Z.to_nat a + Z.to_nat b) w0).
    rewrite train_loop_app.
    unfold bind, ret.
    destruct (train_loop getRandomInt trainSet (Z.to_nat a) w0)
      as [[[]|e] w1]; reflexivity. }
  destruct act as [s|].
  - rewrite train_Some, Hnone. unfold bind.
    now rewrite (train_Some getRandomInt trainSet a s w).
  - apply Hnone.
Qed.

Lemma train_counts_add_witness :
  train round_robin [example_item] (2 + 3) None example_world =
  bind (train round_robin [example_item] 2 None)
       (fun _ => train round_robin [example_item] 3 None) example_world.
Proof.
  apply (train_counts_add round_robin [example_item] 2%Z 3%Z None
           example_world); lia.
Defined.

(** X12. No train call changes the learning rate or the three configured
    sizes, and the activator stored afterwards is the one passed with the
    call, or the previous one when none was passed; this holds whether the
    call returns or throws. *)
Theorem train_keeps_configuration {F : Type} `{JsNumber F} {Sampler : Type}
    (getRandomInt : Z -> Z -> Sampler -> Z * Sampler)
    (trainSet : TrainSet F) (count : Z)
    (act : option (ActivationStrategy F)) (w : World F Sampler) :
  let n' := net (snd (train getRandomInt trainSet count act w)) in
  LR n' = LR (net w) /\
  inputSize n' = inputSize (net w) /\
  hiddenSize n' = hiddenSize (net w) /\
  outputSize n' = outputSize (net w) /\
  activator n' =
  match act with Some a => a | None => activator (net w) end.
Proof.
  pose (c := {| call_trainSet := trainSet; call_count := count;
                call_activator := act |}).
  destruct (after_call_config getRandomInt w c) as (E1 & E2 & E3 & E4).
  pose proof (after_call_activator getRandomInt w c) as E5.
  repeat split; assumption.
Qed.

(** X13. On a network made by the constructor with a shape-keeping default
    activator, after any sequence of train calls whose activators keep
    shapes, query on inputSize numbers returns a column of outputSize
    cells and leaves the network as it is. *)
Theorem query_after_training_returns {F : Type} `{JsNumber F}
    {Sampler : Type} (getRandomInt : Z -> Z -> Sampler -> Z * Sampler)
    (defaultActivator : ActivationStrategy F) (random : nat -> F)
    (inputSize hiddenSize outputSize : nat) (LR : option F)
    (s : Sampler) (calls : list (TrainCall F)) (xs : list F) :
  keeps_shape defaultActivator ->
  Forall call_keeps_shape calls ->
  length xs = inputSize ->
  let n0 := new_Network defaultActivator random
                        inputSize hiddenSize outputSize LR in
  let n := net (after_calls getRandomInt calls (mkWorld n0 s)) in
  exists out,
    query xs n = (Normal out, n) /\ shape out = (outputSize, 1).
Proof.
  intros Hdef Hcalls Hxs n0 n.
  destruct (after_calls_ready getRandomInt calls Hcalls (mkWorld n0 s))
    as (Hn & Hact & Hin & Hout).
  - apply new_Network_shapes_ok.
  - exact Hdef.
  - fold n in Hn, Hact, Hin, Hout. simpl in Hin, Hout.
    eexists. split.
    + apply query_total; [assumption|assumption|congruence].
    + rewrite query_shape by assumption. now rewrite Hout.
Qed.

Lemma query_after_training_returns_witness :
  let n0 := new_Network Sigmoid (fun _ => (1 / 4)%R) 2 2 1 None in
  let n := net (after_calls round_robin [example_call] (mkWorld n0 0)) in
  exists out,
    query [1; 0]%R n = (Normal out, n) /\ shape out = (1, 1).
Proof.
  apply (query_after_training_returns round_robin Sigmoid
           (fun _ => (1 / 4)%R) 2 2 1 None 0 [example_call] [1; 0]%R).
  - intros m. reflexivity.
  - repeat constructor.
  - reflexivity.
Defined.
